(** * Tiered NOVA: block-device free lists, migration engine, victim
    selection and inode LRU lists.

    A shallow embedding of [fs/nova/bdev.c], [fs/nova/migration.c] and
    [fs/nova/profile.c].  Machine integers are modelled as [Z]; where the
    code stores a value in a narrower C type the model truncates it as the
    C conversion does (e.g. [c_int] for an [int]).  Red-black trees
    of range nodes are modelled as lists sorted by [range_low]; a node keeps
    an identity ([rn_id]) that plays the role of its address, so that the
    cached [first_node]/[last_node] pointers can be compared with nodes the
    way the C code compares pointers. *)

From Stdlib Require Import ZArith List Bool Lia Permutation.
Import ListNotations.
Open Scope Z_scope.

(** ** Constants shared by the sources (tier numbering and error codes). *)

(** Tier numbering as used by the indexing in bdev.c:
    [bdev_free_list[(tier - TIER_BDEV_LOW) * cpus + cpu]] for
    [TIER_BDEV_LOW <= tier <= TIER_BDEV_HIGH], and [bdev_list[tier - 1]]. *)
Definition TIER_PMEM : Z := 0.
Definition TIER_BDEV_LOW : Z := 1.
Definition TIER_BDEV_HIGH : Z := 2.

(** Modelled from the spec: [is_tier_pmem] and [is_tier_bdev] (declared in
    the missing header) classify a tier number as PMEM or block device. *)
Definition is_tier_pmem (t : Z) : bool := t =? TIER_PMEM.
Definition is_tier_bdev (t : Z) : bool :=
  (TIER_BDEV_LOW <=? t) && (t <=? TIER_BDEV_HIGH).

Definition ENOSPC : Z := 28.
Definition EINVAL : Z := 22.
Definition EIO : Z := 5.
Definition ENOMEM : Z := 12.
Definition ANY_CPU : Z := -1.
Definition PAGE_SHIFT : Z := 12.

Inductive nova_alloc_direction := ALLOC_FROM_HEAD | ALLOC_FROM_TAIL.

(** ** Range nodes and the per-shard block-device free list *)

Module Bdev.

Record nova_range_node := mk_node {
  rn_id : nat;          (* identity of the node object *)
  range_low : Z;
  range_high : Z;
  csum_ok : bool        (* result of nova_range_node_checksum_ok *)
}.

Record bdev_free_list := mk_bfl {
  bfl_tier : Z;
  bfl_cpu : Z;
  block_start : Z;
  block_end : Z;
  num_total_blocks : Z;
  num_free_blocks : Z;
  num_blocknode : Z;
  first_node : option nat;
  last_node : option nat;
  block_free_tree : list nova_range_node
}.

Definition node_size (c : nova_range_node) : Z := range_high c - range_low c + 1.

Definition set_tree (b : bdev_free_list) t : bdev_free_list :=
  mk_bfl (bfl_tier b) (bfl_cpu b) (block_start b) (block_end b)
    (num_total_blocks b) (num_free_blocks b) (num_blocknode b)
    (first_node b) (last_node b) t.
Definition set_num_free (b : bdev_free_list) v : bdev_free_list :=
  mk_bfl (bfl_tier b) (bfl_cpu b) (block_start b) (block_end b)
    (num_total_blocks b) v (num_blocknode b)
    (first_node b) (last_node b) (block_free_tree b).
Definition set_num_blocknode (b : bdev_free_list) v : bdev_free_list :=
  mk_bfl (bfl_tier b) (bfl_cpu b) (block_start b) (block_end b)
    (num_total_blocks b) (num_free_blocks b) v
    (first_node b) (last_node b) (block_free_tree b).
Definition set_first (b : bdev_free_list) v : bdev_free_list :=
  mk_bfl (bfl_tier b) (bfl_cpu b) (block_start b) (block_end b)
    (num_total_blocks b) (num_free_blocks b) (num_blocknode b)
    v (last_node b) (block_free_tree b).
Definition set_last (b : bdev_free_list) v : bdev_free_list :=
  mk_bfl (bfl_tier b) (bfl_cpu b) (block_start b) (block_end b)
    (num_total_blocks b) (num_free_blocks b) (num_blocknode b)
    (first_node b) v (block_free_tree b).

(** In-order walk of the tree starting at the node with identity [id]:
    the sequence of nodes visited by repeated [rb_next] (or, applied to the
    reversed tree, by [rb_prev]). *)
Fixpoint walk_from (id : nat) (t : list nova_range_node) : list nova_range_node :=
  match t with
  | [] => []
  | c :: r => if Nat.eqb (rn_id c) id then t else walk_from id r
  end.

(** [rb_next] of the node with identity [id]. *)
Fixpoint rb_next (id : nat) (t : list nova_range_node) : option nova_range_node :=
  match t with
  | [] => None
  | c :: r =>
      if Nat.eqb (rn_id c) id
      then match r with d :: _ => Some d | [] => None end
      else rb_next id r
  end.

Definition rb_prev (id : nat) (t : list nova_range_node) : option nova_range_node :=
  rb_next id (rev t).

(** [rb_erase]: unlink the node with identity [id]. *)
Definition rb_erase (id : nat) (t : list nova_range_node) : list nova_range_node :=
  filter (fun d => negb (Nat.eqb (rn_id d) id)) t.

(** In-place update of a node's fields (the node keeps its identity). *)
Definition update_node (c' : nova_range_node) (t : list nova_range_node) :=
  map (fun d => if Nat.eqb (rn_id d) (rn_id c') then c' else d) t.

(** Pointer comparison [curr == bfl->first_node]. *)
Definition is_node (o : option nat) (id : nat) : bool :=
  match o with Some x => Nat.eqb x id | None => false end.

(** The node the [while (temp)] loop of
    [nova_alloc_blocks_in_bdev_free_list] stops at, and how. *)
Inductive pick := PickWhole (c : nova_range_node) | PickPartial (c : nova_range_node) | PickNone.

Fixpoint pick_node (num_blocks : Z) (walk : list nova_range_node) : pick :=
  match walk with
  | [] => PickNone
  | curr :: rest =>
      if negb (csum_ok curr) then pick_node num_blocks rest   (* goto next *)
      else
        let curr_blocks := node_size curr in
        if num_blocks >=? curr_blocks then
          if num_blocks >? curr_blocks then pick_node num_blocks rest
          else PickWhole curr
        else PickPartial curr
  end.

(** [nova_alloc_blocks_in_bdev_free_list]: returns the return value, the
    value of [*new_blocknr] on exit, and the updated free list. *)
Definition nova_alloc_blocks_in_bdev_free_list (bfl : bdev_free_list)
    (num_blocks new_blocknr : Z) (from_tail : nova_alloc_direction)
    : Z * Z * bdev_free_list :=
  match first_node bfl with
  | None => (- ENOSPC, new_blocknr, bfl)
  | Some fid =>
    if num_free_blocks bfl =? 0 then (- ENOSPC, new_blocknr, bfl) else
    let tree := block_free_tree bfl in
    let walk := match from_tail with
                | ALLOC_FROM_HEAD => walk_from fid tree
                | ALLOC_FROM_TAIL =>
                    match last_node bfl with
                    | Some lid => walk_from lid (rev tree)
                    | None => []
                    end
                end in
    let '(found, num_blocks', out, bfl') :=
      match pick_node num_blocks walk with
      | PickWhole curr =>
          let b1 := if is_node (first_node bfl) (rn_id curr)
                    then set_first bfl (option_map rn_id (rb_next (rn_id curr) tree))
                    else bfl in
          let b2 := if is_node (last_node b1) (rn_id curr)
                    then set_last b1 (option_map rn_id (rb_prev (rn_id curr) tree))
                    else b1 in
          let b3 := set_tree b2 (rb_erase (rn_id curr) tree) in
          let b4 := set_num_blocknode b3 (num_blocknode b3 - 1) in
          (true, node_size curr, range_low curr, b4)
      | PickPartial curr =>
          match from_tail with
          | ALLOC_FROM_HEAD =>
              (true, num_blocks, range_low curr,
               set_tree bfl (update_node (mk_node (rn_id curr)
                  (range_low curr + num_blocks) (range_high curr) true) tree))
          | ALLOC_FROM_TAIL =>
              (true, num_blocks, range_high curr + 1 - num_blocks,
               set_tree bfl (update_node (mk_node (rn_id curr)
                  (range_low curr) (range_high curr - num_blocks) true) tree))
          end
      | PickNone => (false, num_blocks, new_blocknr, bfl)
      end in
    if num_free_blocks bfl' <? num_blocks' then (- ENOSPC, out, bfl')
    else if found then (num_blocks', out, set_num_free bfl' (num_free_blocks bfl' - num_blocks'))
    else (- ENOSPC, out, bfl')
  end.

(** ** The [nova_sb_info] fields used by the block-device allocator *)

Record nova_sb_info := mk_sbi {
  cpus : Z;
  sbi_num_blocks : Z;              (* sbi->num_blocks: PMEM blocks *)
  capacity_page : list Z;          (* bdev_list[i].capacity_page *)
  bdev_free_lists : list bdev_free_list   (* flat array sbi->bdev_free_list *)
}.

Definition empty_bfl : bdev_free_list := mk_bfl 0 0 0 0 0 0 0 None None [].

Fixpoint list_set {A} (l : list A) (i : nat) (x : A) : list A :=
  match l, i with
  | [], _ => []
  | _ :: r, O => x :: r
  | y :: r, S i' => y :: list_set r i' x
  end.

Definition nova_get_bdev_free_list_flat (sbi : nova_sb_info) (i : Z) : bdev_free_list :=
  nth (Z.to_nat i) (bdev_free_lists sbi) empty_bfl.

Definition bfl_index (sbi : nova_sb_info) (tier cpu : Z) : Z :=
  (tier - TIER_BDEV_LOW) * cpus sbi + cpu.

Definition nova_get_bdev_free_list (sbi : nova_sb_info) (tier cpu : Z) : bdev_free_list :=
  nova_get_bdev_free_list_flat sbi (bfl_index sbi tier cpu).

Definition put_bdev_free_list (sbi : nova_sb_info) (tier cpu : Z) (b : bdev_free_list) :=
  mk_sbi (cpus sbi) (sbi_num_blocks sbi) (capacity_page sbi)
    (list_set (bdev_free_lists sbi) (Z.to_nat (bfl_index sbi tier cpu)) b).

Definition zseq (n : Z) : list Z := map Z.of_nat (seq 0 (Z.to_nat n)).

(** [nova_init_bdev_free_list] followed by the [recovery == 0] branch of
    [nova_init_bdev_blockmap]; the node of shard [(tier, cpu)] gets the
    identity [id]. *)
Definition nova_init_bdev_free_list (sbi : nova_sb_info) (tier cpu : Z) (id : nat)
    : bdev_free_list :=
  let total := nth (Z.to_nat (tier - TIER_BDEV_LOW)) (capacity_page sbi) 0 / cpus sbi in
  let start0 := fold_left (fun acc i =>
      if i =? 0 then acc + sbi_num_blocks sbi
      else acc + nth (Z.to_nat (i - 1)) (capacity_page sbi) 0) (zseq tier) 0 in
  let start := start0 + cpu * total in
  let end_ := start + total - 1 in
  mk_bfl tier cpu start end_ total (end_ - start + 1) 1 (Some id) (Some id)
    [mk_node id start end_ true].

Definition nova_init_bdev_blockmap (ncpus pmem_blocks : Z) (caps : list Z) : nova_sb_info :=
  let sbi0 := mk_sbi ncpus pmem_blocks caps [] in
  mk_sbi ncpus pmem_blocks caps
    (flat_map (fun i => map (fun j =>
        nova_init_bdev_free_list sbi0 i j (Z.to_nat ((i - TIER_BDEV_LOW) * ncpus + j)))
       (zseq ncpus)) [TIER_BDEV_LOW; TIER_BDEV_HIGH]).

Definition nova_get_bdev_block_start (sbi : nova_sb_info) (tier : Z) : Z :=
  block_start (nova_get_bdev_free_list_flat sbi ((tier - TIER_BDEV_LOW) * cpus sbi)).

Definition nova_get_bdev_block_end (sbi : nova_sb_info) (tier : Z) : Z :=
  block_end (nova_get_bdev_free_list_flat sbi (tier * cpus sbi - 1)).

(** ** Allocation across shards *)

Definition isSome {A} (o : option A) : bool := match o with Some _ => true | None => false end.

Definition not_enough_blocks_bfl (bfl : bdev_free_list) (num_blocks : Z) : bool :=
  (num_free_blocks bfl <? num_blocks) || negb (isSome (first_node bfl))
  || negb (isSome (last_node bfl)).

(** A value stored in a C [int]: truncated to 32 bits, two's complement. *)
Definition c_int (x : Z) : Z :=
  let y := x mod 2 ^ 32 in if 2 ^ 31 <=? y then y - 2 ^ 32 else y.

(** [nova_get_candidate_bdev_free_list]: the running maximum is the [int
    num_free_blocks]; [bfl->num_free_blocks > num_free_blocks] compares as
    [unsigned long], so the [int] is taken modulo [2^64]. *)
Definition nova_get_candidate_bdev_free_list (sbi : nova_sb_info) (tier : Z) : Z :=
  fst (fold_left (fun '(cpuid, nfb) i =>
         let bfl := nova_get_bdev_free_list sbi tier i in
         if num_free_blocks bfl >? nfb mod 2 ^ 64 then (i, c_int (num_free_blocks bfl))
         else (cpuid, nfb))
       (zseq (cpus sbi)) (0, 0)).

(** The [retry:] loop of [nova_new_blocks_from_bdev]: the shard it ends on.
    It looks at the shard of [TIER_BDEV_LOW] for [cpuid], as the source
    does, and asks for a candidate of [tier]; after two retries it
    allocates anyway. *)
Fixpoint retry_select (sbi : nova_sb_info) (tier num_blocks : Z) (fuel : nat) (cpuid : Z) : Z :=
  match fuel with
  | O => cpuid
  | S f =>
      if not_enough_blocks_bfl (nova_get_bdev_free_list sbi TIER_BDEV_LOW cpuid) num_blocks
      then retry_select sbi tier num_blocks f (nova_get_candidate_bdev_free_list sbi tier)
      else cpuid
  end.

(** [nova_new_blocks_from_bdev]: the return value, [*blocknr] on exit and
    the new state; [cur_cpu] is [smp_processor_id()]. *)
Definition nova_new_blocks_from_bdev (sbi : nova_sb_info) (tier blocknr num_blocks cpuid : Z)
    (from_tail : nova_alloc_direction) (cur_cpu : Z) : Z * Z * nova_sb_info :=
  if num_blocks =? 0 then (- EINVAL, blocknr, sbi) else
  let cpuid := if cpuid =? ANY_CPU then cur_cpu else cpuid in
  let cpuid := retry_select sbi tier num_blocks 2 cpuid in
  let bfl := nova_get_bdev_free_list sbi TIER_BDEV_LOW cpuid in
  let '(ret_blocks, new_blocknr, bfl1) :=
    nova_alloc_blocks_in_bdev_free_list bfl num_blocks 0 from_tail in
  let bfl2 := if ret_blocks >? 0 then set_num_blocknode bfl1 (num_blocknode bfl1 + 1) else bfl1 in
  let sbi' := put_bdev_free_list sbi TIER_BDEV_LOW cpuid bfl2 in
  if (ret_blocks <=? 0) || (new_blocknr =? 0) then (- ENOSPC, blocknr, sbi')
  else (ret_blocks, new_blocknr, sbi').

Definition nova_bdev_alloc_blocks (sbi : nova_sb_info) (tier cpuid blocknr num_blocks : Z)
    (cur_cpu : Z) : Z * Z * nova_sb_info :=
  let cpuid := if cpuid =? ANY_CPU then cur_cpu else cpuid in
  let '(ret, b, sbi') :=
    nova_new_blocks_from_bdev sbi TIER_BDEV_LOW blocknr num_blocks cpuid ALLOC_FROM_HEAD cur_cpu in
  (ret, b - sbi_num_blocks sbi, sbi').

Section AllocTier.
(** The PMEM allocator [nova_alloc_blocks_in_free_list] lives outside this
    repository's sources; it is a parameter: given the cpu, the request and
    the incoming [*blocknr], it yields the return value and [*blocknr]. *)
Variable nova_alloc_blocks_in_free_list : Z -> Z -> Z -> Z * Z.

(** [nova_alloc_block_tier]; the migration code passes a direction as an
    extra argument, which this definition has no parameter for. *)
Definition nova_alloc_block_tier (sbi : nova_sb_info) (tier cpuid blocknr num_blocks : Z)
    (cur_cpu : Z) : Z * Z * nova_sb_info :=
  let cpuid := if cpuid =? ANY_CPU then cur_cpu else cpuid in
  if is_tier_pmem tier then
    let '(ret, b) := nova_alloc_blocks_in_free_list cpuid num_blocks blocknr in (ret, b, sbi)
  else if is_tier_bdev tier then nova_bdev_alloc_blocks sbi tier cpuid blocknr num_blocks cur_cpu
  else (-1, blocknr, sbi).
End AllocTier.

(** ** Free path: [nova_free_blocks_from_bdev] *)

Definition overlaps (lo hi : Z) (d : nova_range_node) : bool :=
  (range_low d <=? hi) && (lo <=? range_high d).

Fixpoint last_opt {A} (l : list A) : option A :=
  match l with [] => None | [x] => Some x | _ :: r => last_opt r end.

(** Modelled from the spec: [nova_find_free_slot] (range-tree code outside
    this repository's sources) is the nearest-slot lookup of section 4.1: it
    fails with INVALID when [[lo, hi]] is already (partly) free, and otherwise
    returns the nearest node before [lo] and the nearest node after [hi]. *)
Definition nova_find_free_slot (t : list nova_range_node) (lo hi : Z)
    : option (option nova_range_node * option nova_range_node) :=
  if existsb (overlaps lo hi) t then None
  else Some (last_opt (filter (fun d => range_high d <? lo) t),
             hd_error (filter (fun d => hi <? range_low d) t)).

(** Modelled from the spec: [nova_insert_blocktree] inserts a node into the
    tree ordered by [range_low]; a node with the same key makes it fail. *)
Fixpoint insert_sorted (c : nova_range_node) (t : list nova_range_node)
    : option (list nova_range_node) :=
  match t with
  | [] => Some [c]
  | d :: r =>
      if range_low c <? range_low d then Some (c :: t)
      else if range_low c =? range_low d then None
      else option_map (cons d) (insert_sorted c r)
  end.

(** The body of [nova_free_blocks_from_bdev] from the window check to the
    label [out], on the shard [bfl] that owns [blocknr]; [curr_id] is the
    identity of the pre-allocated node [curr_node]. *)
Definition free_in_bfl (bfl : bdev_free_list) (blocknr num_blocks : Z) (curr_id : nat)
    : Z * bdev_free_list :=
  let tree := block_free_tree bfl in
  let block_low := blocknr in
  let block_high := blocknr + num_blocks - 1 in
  let block_found b := (0, set_num_free b (num_free_blocks b + num_blocks)) in
  let aligns_left prev := match prev with
      | Some p => if block_low =? range_high p + 1 then Some p else None
      | None => None end in
  let aligns_right next := match next with
      | Some n => if block_high + 1 =? range_low n then Some n else None
      | None => None end in
  if (blocknr <? block_start bfl) || (blocknr + num_blocks >? block_end bfl + 1)
  then (- EIO, bfl) else
  match nova_find_free_slot tree block_low block_high with
  | None => (- EINVAL, bfl)
  | Some (prev, next) =>
    let rest :=
      match aligns_left prev with
      | Some p =>   (* Aligns left *)
          block_found (set_tree bfl (update_node
            (mk_node (rn_id p) (range_low p) (range_high p + num_blocks) true) tree))
      | None =>
        match aligns_right next with
        | Some n =>   (* Aligns right *)
            block_found (set_tree bfl (update_node
              (mk_node (rn_id n) (range_low n - num_blocks) (range_high n) true) tree))
        | None =>     (* Aligns somewhere in the middle *)
            match insert_sorted (mk_node curr_id block_low block_high true) tree with
            | None => (- EINVAL, bfl)
            | Some t' =>
                let b1 := set_tree bfl t' in
                let b2 := if isSome prev then b1 else set_first b1 (Some curr_id) in
                let b3 := if isSome next then b2 else set_last b2 (Some curr_id) in
                block_found (set_num_blocknode b3 (num_blocknode b3 + 1))
            end
        end
      end in
    match aligns_left prev, aligns_right next with
    | Some p, Some n =>   (* fits the hole *)
        let t1 := rb_erase (rn_id n) tree in
        let t2 := update_node (mk_node (rn_id p) (range_low p) (range_high n) true) t1 in
        let b1 := set_num_blocknode (set_tree bfl t2) (num_blocknode bfl - 1) in
        let b2 := if is_node (last_node b1) (rn_id n) then set_last b1 (Some (rn_id p)) else b1 in
        block_found b2
    | _, _ => rest
    end
  end.

(** [get_bfl_index]: linear scan of the [TIER_BDEV_HIGH * cpus] shards. *)
Definition get_bfl_index (sbi : nova_sb_info) (blocknr : Z) : Z :=
  let fix scan (is : list Z) :=
    match is with
    | [] => -1
    | i :: r =>
        let bfl := nova_get_bdev_free_list_flat sbi i in
        if (block_start bfl <=? blocknr) && (blocknr <=? block_end bfl) then i else scan r
    end in
  scan (zseq (TIER_BDEV_HIGH * cpus sbi)).

(** [nova_free_blocks_from_bdev]; [curr_node] is the result of
    [nova_alloc_blocknode] ([None] when the node pool is exhausted). *)
Definition nova_free_blocks_from_bdev (sbi : nova_sb_info) (blocknr num_blocks : Z)
    (curr_node : option nat) : Z * nova_sb_info :=
  if num_blocks <=? 0 then (- EINVAL, sbi) else
  match curr_node with
  | None => (- ENOMEM, sbi)
  | Some curr_id =>
    let index := get_bfl_index sbi blocknr in
    if index =? -1 then (- EINVAL, sbi) else
    let '(ret, bfl') := free_in_bfl (nova_get_bdev_free_list_flat sbi index) blocknr num_blocks curr_id in
    (ret, mk_sbi (cpus sbi) (sbi_num_blocks sbi) (capacity_page sbi)
            (list_set (bdev_free_lists sbi) (Z.to_nat index) bfl'))
  end.

End Bdev.

(** ** Write entries and the single-entry migration of migration.c *)

Module Migration.
Import Bdev.

(** The fields of [struct nova_file_write_entry] the core uses.
    Modelled from the spec: the tier of an entry is its own field (the spec's
    "tier (6-bit encoding)"), read by [get_entry_tier]. *)
Record nova_file_write_entry := mk_entry {
  entry_type : Z;
  entry_tier : Z;
  updating : Z;
  num_pages : Z;
  block : Z;        (* byte offset of the first block *)
  pgoff : Z;
  mtime : Z;
  epoch_id : Z;
  seq_count : Z;
  csum : Z
}.

(** Modelled from the spec: [get_entry_tier] reads the entry's tier. *)
Definition get_entry_tier (e : nova_file_write_entry) : Z := entry_tier e.

(** Entry type of a file write entry in the NOVA log. *)
Definition FILE_WRITE : Z := 1.

(** Modelled from the spec: [nova_get_block_off] turns a block number into
    the byte offset stored in [block] (4 KiB blocks). *)
Definition nova_get_block_off (blocknr : Z) : Z := Z.shiftl blocknr PAGE_SHIFT.

Definition set_updating (e : nova_file_write_entry) (u : Z) : nova_file_write_entry :=
  mk_entry (entry_type e) (entry_tier e) u (num_pages e) (block e) (pgoff e)
    (mtime e) (epoch_id e) (seq_count e) (csum e).
Definition set_csum (e : nova_file_write_entry) (c : Z) : nova_file_write_entry :=
  mk_entry (entry_type e) (entry_tier e) (updating e) (num_pages e) (block e) (pgoff e)
    (mtime e) (epoch_id e) (seq_count e) c.

(** The state [migrate_entry_blocks] reads and writes: the allocator, the
    entry [*entry] (mutated in place), the entries appended to the file's
    log from [update->tail] on, [update->tail], [sih->i_blocks] and
    [sih->trans_id]. *)
Record mig_state := mk_ms {
  ms_sbi : nova_sb_info;
  ms_entry : nova_file_write_entry;
  ms_log : list nova_file_write_entry;
  ms_tail : Z;
  ms_i_blocks : Z;
  ms_trans_id : Z
}.

Definition set_ms_entry (st : mig_state) e : mig_state :=
  mk_ms (ms_sbi st) e (ms_log st) (ms_tail st) (ms_i_blocks st) (ms_trans_id st).
Definition set_ms_sbi (st : mig_state) s : mig_state :=
  mk_ms s (ms_entry st) (ms_log st) (ms_tail st) (ms_i_blocks st) (ms_trans_id st).

Section Engine.
(** Collaborators outside this repository's sources. *)
Variable entry_csum : nova_file_write_entry -> Z.              (* checksum of an entry *)
Variable nova_alloc_blocks_in_free_list : Z -> Z -> Z -> Z * Z. (* PMEM allocator *)
Variable vpmem_is_range_rwsem_locked : Z -> Z -> bool.
Variable blockoff_to_virt : Z -> Z.
Variable get_raw_from_blocknr : Z -> Z.
Variable bdev_write_ret : Z -> Z -> Z -> Z.  (* result of a write: tier, raw block, count *)
Variable bdev_read_ret : Z -> Z -> Z -> Z.   (* result of a read: tier, raw block, count *)
Variable flush_bal_entry : Z.                (* result of flush_bal_entry(sbi) *)
Variable nova_append_file_write_entry : Z -> option Z.  (* new tail, or failure *)
Variable blk_shift : Z.                      (* data_bits - sb->s_blocksize_bits *)
Variable cur_cpu : Z.                        (* smp_processor_id() *)

Definition nova_update_entry_csum (e : nova_file_write_entry) : nova_file_write_entry :=
  set_csum e (entry_csum e).

Definition is_entry_busy (e : nova_file_write_entry) : bool :=
  if negb (is_tier_bdev (get_entry_tier e)) then false
  else vpmem_is_range_rwsem_locked (blockoff_to_virt (Z.shiftr (block e) PAGE_SHIFT))
         (num_pages e).

Definition migrate_blocks (blockfrom nr from to blocknr : Z) : Z :=
  let raw_blockfrom := get_raw_from_blocknr blockfrom in
  let raw_blockto := get_raw_from_blocknr blocknr in
  if is_tier_pmem from && is_tier_bdev to then bdev_write_ret to raw_blockto nr
  else if is_tier_bdev from && is_tier_pmem to then bdev_read_ret from raw_blockfrom nr
  else if is_tier_bdev from && is_tier_bdev to then
    let _ := bdev_read_ret from raw_blockfrom nr in bdev_write_ret to raw_blockto nr
  else -2.

Definition nova_clone_write_entry (st : mig_state) (entry : nova_file_write_entry)
    (tier blocknr : Z) : Z * mig_state :=
  let entry_data := mk_entry FILE_WRITE (entry_tier entry) (updating entry)
      (num_pages entry) (nova_get_block_off blocknr) (pgoff entry) (mtime entry)
      (epoch_id entry) (seq_count entry) (csum entry) in
  let entry_data := nova_update_entry_csum entry_data in
  match nova_append_file_write_entry (ms_tail st) with
  | None => (- ENOSPC, st)
  | Some tail' =>
      (0, mk_ms (ms_sbi st) (ms_entry st) (ms_log st ++ [entry_data]) tail'
            (ms_i_blocks st + Z.shiftl (num_pages entry) blk_shift)
            (ms_trans_id st + 1))
  end.

(** [migrate_entry_blocks] on the entry held in [ms_entry]; a zero
    [blocknr_hint] selects solo mode. *)
Definition migrate_entry_blocks (st : mig_state) (from to blocknr_hint : Z) : Z * mig_state :=
  let entry := ms_entry st in
  (* Step 1. Check *)
  if negb (get_entry_tier entry =? from) then (0, st) else
  if is_entry_busy entry then (-1, st) else
  (* Step 2. Allocate *)
  let st1 := set_ms_entry st (set_updating entry 1) in
  let '(ret, blocknr, sbi') :=
    if negb (blocknr_hint =? 0) then (0, blocknr_hint, ms_sbi st1)
    else nova_alloc_block_tier nova_alloc_blocks_in_free_list (ms_sbi st1) to ANY_CPU 0
           (num_pages entry) cur_cpu in
  let st2 := set_ms_sbi st1 sbi' in
  if ret <? 0 then (ret, st2) else
  (* Step 3. Copy *)
  let ret := migrate_blocks (Z.shiftr (block entry) PAGE_SHIFT) (num_pages entry) from to blocknr in
  if ret <? 0 then (ret, st2) else
  let ret := flush_bal_entry in
  if ret <? 0 then (ret, st2) else
  (* Step 4. Free *)
  let entry' := nova_update_entry_csum (set_updating (ms_entry st2) 0) in
  let st3 := set_ms_entry st2 entry' in
  if blocknr_hint =? 0 then nova_clone_write_entry st3 entry' to blocknr else (ret, st3).

End Engine.
End Migration.

(** ** Capacity monitor and victim selection *)

Module Victim.
Import Bdev.

(** The state read by [pop_an_inode_to_migrate] and
    [do_migrate_a_file_downward]. *)
Record vstate := mk_vs {
  vs_sbi : nova_sb_info;
  (* PMEM free lists (outside these sources): block_start, block_end,
     num_free_blocks of each cpu's list *)
  vs_pmem_free_lists : list (Z * Z * Z);
  (* per cpu, the in-use inode ranges [range_low, range_high] of
     [inode_maps[j]] in tree order, from [first_inode_range] on *)
  vs_inode_maps : list (list (Z * Z));
  (* [nova_iget] then [nova_get_write_entry(sb, sih, 0)] then
     [get_entry_tier]: [None] when either lookup yields NULL *)
  vs_first_entry_tier : Z -> option Z
}.

(** Closed integer interval [lo, hi] as the [for (k = lo; k <= hi; ++k)]
    loop enumerates it. *)
Definition zrange (lo hi : Z) : list Z :=
  map (fun i => lo + Z.of_nat i) (seq 0 (Z.to_nat (hi - lo + 1))).

Section Pop.
Variable vs : vstate.
Variable tier : Z.
Variable cur_cpu : Z.

(** The inner [for (k = ...)] loop over one range node of shard [j]: [Some
    ino] when the inode is popped, [None] on [goto next] or at the end of
    the node. *)
Fixpoint scan_range (j : Z) (ks : list Z) : option Z :=
  match ks with
  | [] => None
  | k :: r =>
      if k <=? 8 then scan_range j r else
      let ino := k * cpus (vs_sbi vs) + j in
      match vs_first_entry_tier vs ino with
      | None => None
      | Some t => if t =? tier then Some ino else scan_range j r
      end
  end.

Fixpoint scan_nodes (j : Z) (nodes : list (Z * Z)) : option Z :=
  match nodes with
  | [] => None
  | (lo, hi) :: r =>
      match scan_range j (zrange lo hi) with
      | Some ino => Some ino
      | None => scan_nodes j r
      end
  end.

Definition pop_an_inode_to_migrate : option Z :=
  let n := cpus (vs_sbi vs) in
  let fix shards (jjs : list Z) :=
    match jjs with
    | [] => None
    | jj :: r =>
        let j := jj mod n in
        match scan_nodes j (nth (Z.to_nat j) (vs_inode_maps vs) []) with
        | Some ino => Some ino
        | None => shards r
        end
    end in
  shards (map (fun i => cur_cpu + i) (zseq n)).

(** The walk as C8's amended statement reads it: the inodes the loops look
    up, in order. Shards go round-robin from [cur_cpu], range nodes in tree
    order; in a node [lo, hi] the inodes [k * cpus + j] for [k > 8], up to
    and including the first one whose lookup yields NULL. *)
Fixpoint range_visits (j : Z) (ks : list Z) : list Z :=
  match ks with
  | [] => []
  | k :: r =>
      if k <=? 8 then range_visits j r else
      let ino := k * cpus (vs_sbi vs) + j in
      match vs_first_entry_tier vs ino with
      | None => [ino]
      | Some _ => ino :: range_visits j r
      end
  end.

Definition node_visits (j : Z) (nodes : list (Z * Z)) : list Z :=
  flat_map (fun n => range_visits j (zrange (fst n) (snd n))) nodes.

Definition pop_visit_order : list Z :=
  let n := cpus (vs_sbi vs) in
  flat_map (fun jj => node_visits (jj mod n) (nth (Z.to_nat (jj mod n)) (vs_inode_maps vs) []))
    (map (fun i => cur_cpu + i) (zseq n)).
End Pop.

(** [r] is the first element of [l] satisfying [P], or [None] when no
    element does. *)
Definition first_match (P : Z -> Prop) (r : option Z) (l : list Z) : Prop :=
  match r with
  | Some x => exists pre post, l = pre ++ x :: post /\ P x /\ Forall (fun y => ~ P y) pre
  | None => Forall (fun y => ~ P y) l
  end.

Section Downward.
Variable MIGRATION_DOWNWARD_PERC : Z.
Variable cur_cpu : Z.
(** The effect of [migrate_a_file(inode, from, to)] on the state. *)
Variable migrate_a_file_effect : vstate -> option Z -> Z -> Z -> vstate.

Definition nova_pmem_used (vs : vstate) : Z :=
  fold_left (fun used '(s, e, f) => used + (e - s + 1 - f)) (vs_pmem_free_lists vs) 0.
Definition nova_pmem_total (vs : vstate) : Z :=
  fold_left (fun total '(s, e, f) => total + (e - s + 1)) (vs_pmem_free_lists vs) 0.
Definition is_pmem_usage_high (vs : vstate) : bool :=
  nova_pmem_total vs * MIGRATION_DOWNWARD_PERC <? nova_pmem_used vs * 100.

Definition nova_bdev_used (sbi : nova_sb_info) (tier : Z) : Z :=
  fold_left (fun used i => let bfl := nova_get_bdev_free_list sbi tier i in
               used + (num_total_blocks bfl - num_free_blocks bfl)) (zseq (cpus sbi)) 0.
Definition nova_bdev_total (sbi : nova_sb_info) (tier : Z) : Z :=
  fold_left (fun total i => total + num_total_blocks (nova_get_bdev_free_list sbi tier i))
    (zseq (cpus sbi)) 0.
Definition is_bdev_usage_high (sbi : nova_sb_info) (tier : Z) : bool :=
  MIGRATION_DOWNWARD_PERC * nova_bdev_total sbi tier <? nova_bdev_used sbi tier * 100.

(** [do_migrate_a_file_downward]: the return value and the calls
    [migrate_a_file(this, from, to)] it makes, in order ([None] for a NULL
    [this]). *)
Definition do_migrate_a_file_downward (vs : vstate) : Z * list (option Z * Z * Z) :=
  let pmem_step :=
    if is_pmem_usage_high vs then
      match pop_an_inode_to_migrate vs TIER_PMEM cur_cpu with
      | None => None
      | Some this => Some (migrate_a_file_effect vs (Some this) TIER_PMEM TIER_BDEV_LOW,
                          [(Some this, TIER_PMEM, TIER_BDEV_LOW)])
      end
    else Some (vs, []) in
  match pmem_step with
  | None => (0, [])
  | Some (vs1, calls1) =>
      let '(_, calls) := fold_left (fun '(vs', calls) i =>
          if is_bdev_usage_high (vs_sbi vs') i then
            let this := pop_an_inode_to_migrate vs' i cur_cpu in
            (migrate_a_file_effect vs' this i (i + 1), calls ++ [(this, i, i + 1)])
          else (vs', calls))
        (zrange TIER_BDEV_LOW (TIER_BDEV_HIGH - 1)) (vs1, calls1) in
      (0, calls)
  end.
End Downward.
End Victim.

(** ** Inode LRU lists of profile.c *)

Module Profile.
Import Bdev.

(** [sbi->inode_lru_lists]: the inode numbers on the list of each
    (tier, cpu), head first.  An inode has one list hook per tier, so it is
    on a given list at most once. *)
Definition lru_lists := Z -> Z -> list Z.

Record nova_inode_info_header := mk_sih { sih_ino : Z; htier : Z; ltier : Z }.

Definition set_list (l : lru_lists) (tier cpu : Z) (v : list Z) : lru_lists :=
  fun t c => if (t =? tier) && (c =? cpu) then v else l t c.

(** [list_del_init(&sih->lru_list[i])] when the hook is linked. *)
Definition list_del_ino (l : lru_lists) (tier cpu ino : Z) : lru_lists :=
  set_list l tier cpu (filter (fun x => negb (x =? ino)) (l tier cpu)).

Definition list_add_tail_ino (l : lru_lists) (tier cpu ino : Z) : lru_lists :=
  set_list l tier cpu (l tier cpu ++ [ino]).

Section Lru.
Variable ncpus : Z.   (* sbi->cpus *)

Definition nova_remove_inode_lru_list (l : lru_lists) (sih : nova_inode_info_header) (tier : Z)
    : lru_lists :=
  let cpu := sih_ino sih mod ncpus in
  fold_left (fun l' i => list_del_ino l' i cpu (sih_ino sih)) (zseq (tier + 1)) l.

Definition nova_update_sih_tier (l : lru_lists) (sih : nova_inode_info_header)
    (tier : Z) (force write : bool) : lru_lists * nova_inode_info_header :=
  let ino := sih_ino sih in
  let cpu := ino mod ncpus in
  if force then
    let l1 := nova_remove_inode_lru_list l sih TIER_BDEV_HIGH in
    (list_add_tail_ino l1 tier cpu ino, mk_sih ino tier tier)
  else if write then
    let l1 := list_add_tail_ino (list_del_ino l tier cpu ino) tier cpu ino in
    let lt := if ltier sih >? tier then tier else ltier sih in
    let ht := if htier sih <? tier then tier else htier sih in
    (l1, mk_sih ino ht lt)
  else
    let l1 := nova_remove_inode_lru_list l sih tier in
    let l2 := list_add_tail_ino l1 tier cpu ino in
    let lt := if ltier sih <? tier then tier else ltier sih in
    let ht := if htier sih <? lt then lt else htier sih in
    (l2, mk_sih ino ht lt).
End Lru.
End Profile.

(** ** Write profiler of profile.c *)

Module Prof.
Import Bdev Migration Profile.

(** Unsigned wrap-around of the 64-bit ([unsigned long], [u64]) and 32-bit
    ([unsigned int], [u32]) C arithmetic used by the profiler and by
    [nova_split_entry]. *)
Definition u64 (x : Z) : Z := x mod 2 ^ 64.
Definition u32 (x : Z) : Z := x mod 2 ^ 32.

Definition SYNC_BIT : Z := 20.
Definition SEQ_BIT : Z := 2.

(** [is_wcount_time_out]: [now] is the truncated current time in seconds,
    [i_mtime] the inode's modification time. *)
Definition is_wcount_time_out (now i_mtime : Z) : bool := now - i_mtime >? 30.

(** [nova_sih_increase_wcount]: the return value and the new [sih->wcount]
    (a 64-bit unsigned counter). *)
Definition nova_sih_increase_wcount (now i_mtime wcount len : Z) : Z * Z :=
  if is_wcount_time_out now i_mtime then (0, len)
  else if Z.shiftr wcount 62 =? 1 then (-1, wcount)
  else (0, u64 (wcount + len)).

Definition nova_sih_is_sync (wcount : Z) : bool := Z.shiftr wcount 63 =? 1.

(** [nova_sih_judge_sync]: the verdict and the new [sih->wcount]. *)
Definition nova_sih_judge_sync (wcount : Z) : bool * Z :=
  if Z.shiftr (Z.land wcount (Z.shiftl 1 63 - 1)) SYNC_BIT =? 0 then (false, 0)
  else (true, Z.shiftl 1 63).

(** [sih->wcount] after a sequence of writes, each given as the time of the
    write, the inode's [i_mtime] at that time and the length written. *)
Definition run_writes (w0 : Z) (writes : list (Z * Z * Z)) : Z :=
  fold_left (fun w '(now, i_mtime, len) => snd (nova_sih_increase_wcount now i_mtime w len))
    writes w0.

Section SeqCount.
(** [nova_find_next_entry(sb, sih, pgoff)] (outside these sources): the
    write entry it yields, [None] for NULL. *)
Variable nova_find_next_entry : Z -> option nova_file_write_entry.
(** The truncated current time in seconds. *)
Variable now : Z.

Definition is_entry_time_out (e : nova_file_write_entry) : bool := now - mtime e >? 30.

(** [nova_get_prev_seq_count]; [num_pages] is a C [int], so [num_pages/2]
    truncates towards zero. *)
Definition nova_get_prev_seq_count (pgoff num_pages : Z) : Z :=
  let mid := u64 (pgoff + Z.quot num_pages 2) in
  let tail :=
    match nova_find_next_entry mid with
    | None => 0
    | Some e =>
        if is_entry_time_out e then 0
        else if (Migration.pgoff e <=? mid) &&
                (u64 (pgoff + num_pages) <=? u64 (Migration.pgoff e + Migration.num_pages e))
             then u32 (seq_count e + 1) else 0
    end in
  match nova_find_next_entry pgoff with
  | None => tail
  | Some e =>
      if is_entry_time_out e then tail
      else if (Migration.pgoff e <=? pgoff) &&
              (mid <=? u64 (Migration.pgoff e + Migration.num_pages e - 1))
           then u32 (seq_count e + 1) else tail
  end.
End SeqCount.

(** [nova_unlink_inode_lru_list]; taking and releasing [mig_sem] has no
    effect on the lists. *)
Definition nova_unlink_inode_lru_list (ncpus : Z) (l : lru_lists) (sih : nova_inode_info_header)
    : lru_lists :=
  nova_remove_inode_lru_list ncpus l sih TIER_BDEV_HIGH.

End Prof.

(** ** Splitting a write entry at a block-device window boundary *)

Module Split.
Import Bdev Migration Prof.

Definition set_num_pages (e : nova_file_write_entry) (n : Z) : nova_file_write_entry :=
  mk_entry (entry_type e) (entry_tier e) (updating e) n (block e) (pgoff e)
    (mtime e) (epoch_id e) (seq_count e) (csum e).

Section Geometry.
(** [sbi->bdev_list[tier - TIER_BDEV_LOW].opt_size_bit]. *)
Variable opt_size_bit : Z -> Z.
(** Whether [nova_append_file_write_entry] succeeds. *)
Variable nova_append_ok : bool.
(** The return value of [nova_reassign_file_tree]. *)
Variable nova_reassign_file_tree_ret : Z.
(** [data_bits - sb->s_blocksize_bits]. *)
Variable blk_shift : Z.

(** [is_entry_cross_boundary]: [pgoff] is a [u64], so the end page is
    computed modulo [2^64]. *)
Definition is_entry_cross_boundary (e : nova_file_write_entry) (tier : Z) : bool :=
  let osb := opt_size_bit tier in
  negb (Z.shiftr (pgoff e) osb =? Z.shiftr (u64 (pgoff e + num_pages e - 1)) osb).

(** [nova_split_entry]: the return value, the entry after
    [entry->num_pages = num_prev], the entries appended to the log (given by
    the [pgoff], [num_pages] and block number passed to
    [nova_init_file_write_entry]), the increment of [sih->i_blocks] and the
    increment of [sih->trans_id]. *)
Definition nova_split_entry (e : nova_file_write_entry) (tier : Z)
    : Z * nova_file_write_entry * list (Z * Z * Z) * Z * Z :=
  let osb := opt_size_bit tier in
  let np := num_pages e in
  let pg := pgoff e in
  let num_prev := u64 (Z.shiftl (Z.shiftr (u64 (pg + np - 1)) osb) osb - pg) in
  let entry_data := (u64 (pg + num_prev), u64 (np - num_prev),
                     u64 (Z.shiftr (block e) PAGE_SHIFT + num_prev)) in
  let e' := set_num_pages e (u32 num_prev) in
  let appended := if nova_append_ok then [entry_data] else [] in
  let i_blocks_inc := u64 (Z.shiftl (u64 (num_pages e' - num_prev)) blk_shift) in
  let ret := nova_reassign_file_tree_ret in
  if negb (ret =? 0) then (ret, e', appended, i_blocks_inc, 0)
  else (ret, e', appended, i_blocks_inc, 1).
End Geometry.
End Split.

(** ** The file walkers of migration.c *)

Module Walk.
Import Bdev Migration Prof.

Section FileWalk.
(** [nova_find_next_entry(sb, sih, index)] on the file's radix tree; the
    walkers below do not reassign the tree while they run, and
    [migrate_entry_blocks] leaves an entry's tier, [pgoff] and [num_pages]
    as they are, so the lookup is a fixed function during a walk. *)
Variable nova_find_next_entry : Z -> option nova_file_write_entry.
(** [i_size_read(inode)] *)
Variable isize : Z.

(** [end_index = (isize) >> PAGE_SHIFT], stored in a [pgoff_t]. *)
Definition file_end_index : Z := u64 (Z.shiftr isize PAGE_SHIFT).

(** The lookup contract the walkers rely on: an entry returned for
    [index] ends after [index], within the [pgoff_t] range. *)
Definition find_wf : Prop :=
  forall i e, nova_find_next_entry i = Some e -> i < pgoff e + num_pages e < 2 ^ 64.

(** [current_tier]: the do-while returns in its first iteration. *)
Definition current_tier : Z :=
  if file_end_index =? 0 then -1 else
  match nova_find_next_entry 0 with
  | Some entry => get_entry_tier entry
  | None => -1
  end.

(** The do-while of [is_not_same_tier]; [exist] holds [t] once set.
    [continue] jumps to the loop condition. [fuel] bounds the iterations:
    [None] means the loop has not ended within [fuel] iterations. *)
Fixpoint is_not_same_tier_loop (fuel : nat) (index : Z) (exist : option Z) : option Z :=
  match fuel with
  | O => None
  | S fuel' =>
      match nova_find_next_entry index with
      | None => Some 0
      | Some entry =>
          match exist with
          | None =>
              if index <=? file_end_index
              then is_not_same_tier_loop fuel' index (Some (get_entry_tier entry))
              else Some 0
          | Some t =>
              if get_entry_tier entry =? t then
                let index := u64 (pgoff entry + num_pages entry) in
                if index <=? file_end_index
                then is_not_same_tier_loop fuel' index exist
                else Some 0
              else Some 1
          end
      end
  end.

Definition is_not_same_tier (fuel : nat) : option Z :=
  if file_end_index =? 0 then Some 1 else is_not_same_tier_loop fuel 0 None.

Section Rotate.
(** Result of [migrate_a_file(inode, from, to)]. *)
Variable migrate_a_file : Z -> Z -> Z.
Variable DEBUG_XFSTESTS : bool.

Definition do_migrate_a_file_rotate (fuel : nat) : option Z :=
  match is_not_same_tier fuel with
  | None => None
  | Some ret =>
      if negb (ret =? 0) then Some (-1) else
      let t := current_tier in
      if t =? TIER_PMEM then Some (migrate_a_file TIER_PMEM TIER_BDEV_LOW)
      else if t =? TIER_BDEV_LOW then
        Some (if DEBUG_XFSTESTS then migrate_a_file TIER_BDEV_LOW TIER_PMEM
              else migrate_a_file TIER_BDEV_LOW TIER_BDEV_HIGH)
      else if t =? TIER_BDEV_LOW + 1 then Some (migrate_a_file TIER_BDEV_HIGH TIER_PMEM)
      else Some (-1)
  end.
End Rotate.

Section ByEntries.
(** The collaborators of [migrate_entry_blocks], as in its model. *)
Variable entry_csum : nova_file_write_entry -> Z.
Variable nova_alloc_blocks_in_free_list : Z -> Z -> Z -> Z * Z.
Variable vpmem_is_range_rwsem_locked : Z -> Z -> bool.
Variable blockoff_to_virt : Z -> Z.
Variable get_raw_from_blocknr : Z -> Z.
Variable bdev_write_ret : Z -> Z -> Z -> Z.
Variable bdev_read_ret : Z -> Z -> Z -> Z.
Variable flush_bal_entry : Z.
Variable nova_append_file_write_entry : Z -> option Z.
Variable blk_shift : Z.
Variable cur_cpu : Z.
(** The calls after the walk, outside this repository's sources:
    [nova_update_inode(sb, inode, pi, &update, 1)] commits the log tail;
    [nova_reassign_file_tree(sb, sih, begin_tail, true)] gives its result
    and the new state; [nova_inode_log_fast_gc(sb, pi, sih, 0, 0, 0, 0, 1)]
    is the forced thorough log GC. *)
Variable nova_update_inode : mig_state -> mig_state.
Variable nova_reassign_file_tree : Z -> mig_state -> Z * mig_state.
Variable nova_inode_log_fast_gc : mig_state -> mig_state.

(** The do-while of [migrate_a_file_by_entries]: an entry on [from] is
    migrated in solo mode (hint 0) on the shared [update]; the result of
    each [migrate_entry_blocks] is overwritten after the loop. *)
Fixpoint by_entries_loop (fuel : nat) (index : Z) (st : mig_state) (from to : Z)
    : option mig_state :=
  match fuel with
  | O => None
  | S fuel' =>
      match nova_find_next_entry index with
      | None => Some st
      | Some entry =>
          let st :=
            if get_entry_tier entry =? from then
              snd (migrate_entry_blocks entry_csum nova_alloc_blocks_in_free_list
                     vpmem_is_range_rwsem_locked blockoff_to_virt get_raw_from_blocknr
                     bdev_write_ret bdev_read_ret flush_bal_entry
                     nova_append_file_write_entry blk_shift cur_cpu
                     (set_ms_entry st entry) from to 0)
            else st in
          let index := u64 (pgoff entry + num_pages entry) in
          if index <=? file_end_index then by_entries_loop fuel' index st from to
          else Some st
      end
  end.

(** What [migrate_a_file_by_entries] does after its loop, from
    [begin_tail]: update the inode, reassign the file tree, run the forced
    log GC; [if (ret) return ret; ... return ret;] returns the result of
    [nova_reassign_file_tree] either way. *)
Definition by_entries_epilogue (begin_tail : Z) (st : mig_state) : Z * mig_state :=
  let st := nova_update_inode st in
  let '(ret, st) := nova_reassign_file_tree begin_tail st in
  let st := nova_inode_log_fast_gc st in
  (ret, st).

(** [migrate_a_file_by_entries]: [begin_tail = update.tail], the walk from
    index 0, then the epilogue. *)
Definition migrate_a_file_by_entries (fuel : nat) (from to : Z) (st : mig_state)
    : option (Z * mig_state) :=
  let begin_tail := ms_tail st in
  match by_entries_loop fuel 0 st from to with
  | None => None
  | Some st' => Some (by_entries_epilogue begin_tail st')
  end.

Definition migrate_a_file_to_pmem (fuel : nat) (st : mig_state) : option (Z * mig_state) :=
  if current_tier =? TIER_PMEM then Some (0, st)
  else migrate_a_file_by_entries fuel current_tier TIER_PMEM st.
End ByEntries.
End FileWalk.
End Walk.

(** ** Concrete inputs for the profiler and allocator properties *)

Module ExtraScenarios.
Import Bdev Migration.

(** A write of 4 pages at page 2, 10 seconds after an 8-page entry at page
    0 with [seq_count = 3]. *)
Definition seq_entry : nova_file_write_entry := mk_entry FILE_WRITE TIER_PMEM 0 8 0 0 100 0 3 0.
Definition seq_find (i : Z) : option nova_file_write_entry :=
  if (0 <=? i) && (i <? 8) then Some seq_entry else None.

(** A four-page entry of file pages [510, 514) on block 7, across the
    boundary of 512-page windows ([opt_size_bit = 9]). *)
Definition entry_across : nova_file_write_entry :=
  mk_entry FILE_WRITE TIER_BDEV_LOW 0 4 (Z.shiftl 7 PAGE_SHIFT) 510 0 0 0 0.
Definition osb9 (tier : Z) : Z := 9.

(** Two cpus, 100 PMEM blocks and two block devices of 50 blocks each,
    freshly mounted. *)
Definition sbi_mounted : nova_sb_info := nova_init_bdev_blockmap 2 100 [50; 50].

(** A file of 8 pages (32 KiB) held by two four-page entries, [walk_a] on
    pages [0, 4) and [walk_b] on pages [4, 8), both on PMEM; and the same
    file with its second half on the low block device. *)
Definition walk_a : nova_file_write_entry := mk_entry FILE_WRITE TIER_PMEM 0 4 0 0 0 0 0 0.
Definition walk_b : nova_file_write_entry := mk_entry FILE_WRITE TIER_PMEM 0 4 0 4 0 0 0 0.
Definition walk_b_low : nova_file_write_entry := mk_entry FILE_WRITE TIER_BDEV_LOW 0 4 0 4 0 0 0 0.
Definition find_two (b : nova_file_write_entry) (i : Z) : option nova_file_write_entry :=
  if (0 <=? i) && (i <? 4) then Some walk_a
  else if (4 <=? i) && (i <? 8) then Some b else None.
Definition walk_isize : Z := 8 * 4096.

(** A migration state on a freshly mounted sbi. *)
Definition walk_state : mig_state := mk_ms sbi_mounted walk_a [] 0 0 0.

End ExtraScenarios.

(** ** Concrete configurations used by the properties below *)

(** ** Range-tree invariants and reachable shard states *)

Module RangeTree.
Import Bdev.

Definition ids (t : list nova_range_node) : list nat := map rn_id t.

Definition wf_node (d : nova_range_node) : Prop := range_low d <= range_high d.

(** The gap condition between a node and the node after it. *)
Definition head_gap (a : nova_range_node) (r : list nova_range_node) : Prop :=
  match r with b :: _ => range_high a + 1 < range_low b | [] => True end.

Definition last_gap (l : list nova_range_node) (x : nova_range_node) : Prop :=
  match last_opt l with Some a => range_high a + 1 < range_low x | None => True end.

(** Consecutive nodes are separated by at least one allocated block. *)
Fixpoint gaps_ok (t : list nova_range_node) : Prop :=
  match t with
  | a :: r => head_gap a r /\ gaps_ok r
  | [] => True
  end.

(** Invariant I2: any node [a] before any node [b] in tree order satisfies
    [a.high + 1 < b.low]. *)
Definition coalesced (t : list nova_range_node) : Prop :=
  forall pre a mid b post, t = pre ++ a :: mid ++ b :: post ->
    range_high a + 1 < range_low b.

(** The shape invariant the allocator and the free path maintain. *)
Definition tree_inv (t : list nova_range_node) : Prop :=
  NoDup (ids t) /\ gaps_ok t /\ Forall wf_node t.

Definition sum_sizes (t : list nova_range_node) : Z :=
  fold_right (fun d acc => node_size d + acc) 0 t.

(** The update [nova_new_blocks_from_bdev] makes to the shard it allocates
    from (after its [num_blocks == 0] test). *)
Definition shard_alloc (b : bdev_free_list) (n : Z) (dir : nova_alloc_direction)
    : bdev_free_list :=
  let '(ret, _, b1) := nova_alloc_blocks_in_bdev_free_list b n 0 dir in
  if ret >? 0 then set_num_blocknode b1 (num_blocknode b1 + 1) else b1.

(** Shard states reachable from mount: the initial shard, then any sequence
    of allocations (successful or not) and of frees (successful or not) with
    a freshly allocated spare node. *)
Inductive reachable : bdev_free_list -> Prop :=
| reach_init sbi tier cpu id :
    reachable (nova_init_bdev_free_list sbi tier cpu id)
| reach_alloc b n dir :
    reachable b -> 0 < n -> reachable (shard_alloc b n dir)
| reach_free b blocknr n id :
    reachable b -> 0 < n -> ~ In id (ids (block_free_tree b)) ->
    reachable (snd (free_in_bfl b blocknr n id)).

End RangeTree.

Module Scenarios.
Import Bdev Migration Victim Profile RangeTree.

(** One cpu, 100 PMEM blocks, two block-device tiers of 50 blocks each:
    tier 1 owns [100, 149], tier 2 owns [150, 199]. *)
Definition sbi_two_tiers : nova_sb_info := nova_init_bdev_blockmap 1 100 [50; 50].

(** The same after the whole of tier 1 has been allocated. *)
Definition sbi_low_full : nova_sb_info :=
  let '(_, _, s) := nova_bdev_alloc_blocks sbi_two_tiers TIER_BDEV_LOW 0 0 50 0 in s.

Definition pmem_alloc_ok (cpu num_blocks blocknr : Z) : Z * Z := (num_blocks, blocknr).

(** [migrate_entry_blocks] where every collaborator succeeds; [locked] is
    the answer of the vpmem range lock test. *)
Definition migrate_ok (locked : bool) :=
  migrate_entry_blocks (fun e => pgoff e + num_pages e) pmem_alloc_ok
    (fun _ _ => locked) (fun x => x) (fun x => x)
    (fun _ _ _ => 0) (fun _ _ _ => 0) 0 (fun t => Some (t + 64)) 0 0.

(** A four-page entry of file pages [0, 4) on PMEM block 7. *)
Definition entry_pmem (upd : Z) : nova_file_write_entry :=
  mk_entry FILE_WRITE TIER_PMEM upd 4 (nova_get_block_off 7) 0 11 12 13 0.

Definition file_state (s : nova_sb_info) (upd : Z) : mig_state :=
  mk_ms s (entry_pmem upd) [] 1000 0 0.

(** Two cpus; inode ranges: shard 1 holds range index 4, i.e. inode
    4 * 2 + 1 = 9, whose first write entry is on PMEM. *)
Definition vs_inode9 : vstate :=
  mk_vs (nova_init_bdev_blockmap 2 100 [50; 50]) [] [[]; [(4, 4)]]
    (fun ino => if ino =? 9 then Some TIER_PMEM else None).

(** PMEM nearly empty, tier 1 completely used, no inode at all. *)
Definition vs_low_full_no_inode : vstate :=
  mk_vs sbi_low_full [(0, 99, 99)] [[]] (fun _ => None).

(** With two cpus, inode 5 belongs to cpu 1; it is on the lists of tiers
    0, 1 and 2 of that cpu. *)
Definition lru_ino5 : lru_lists := fun t c => if c =? 1 then [5] else [].

(** A locked-range candidate: a four-page entry on block-device tier 1. *)
Definition entry_bdev : nova_file_write_entry :=
  mk_entry FILE_WRITE TIER_BDEV_LOW 0 4 (nova_get_block_off 120) 0 11 12 13 0.

Definition bdev_file_state : mig_state := mk_ms sbi_two_tiers entry_bdev [] 1000 0 0.

(** A shard of tier 1 holding two free runs of 2 and 3 blocks: 5 free
    blocks, but no run of 4. *)
Definition bfl_two_runs : bdev_free_list :=
  mk_bfl TIER_BDEV_LOW 0 10 29 20 5 2 (Some 0%nat) (Some 1%nat)
    [mk_node 0 10 11 true; mk_node 1 20 22 true].

(** The shard of tier 1 after mount, an allocation of 3 blocks from the
    head and the free of block 100 into the spare node 5: free runs
    [100, 100] and [103, 149] around the hole [101, 102]. *)
Definition shard_holey : bdev_free_list :=
  snd (free_in_bfl (shard_alloc (nova_init_bdev_free_list sbi_two_tiers TIER_BDEV_LOW 0 0)
                      3 ALLOC_FROM_HEAD) 100 1 5).

(** Two cpus; shard 1 holds range index 9, i.e. inode 9 * 2 + 1 = 19, whose
    first write entry is on PMEM. *)
Definition vs_inode19 : vstate :=
  mk_vs (nova_init_bdev_blockmap 2 100 [50; 50]) [] [[]; [(9, 9)]]
    (fun ino => if ino =? 19 then Some TIER_PMEM else None).

(** Two cpus. Shard 0 has the range node [9, 11]: inode 18 is on tier 1,
    inode 20 has no inode (NULL), inode 22 is on PMEM. Shard 1 holds range
    index 9, i.e. inode 19, on PMEM. *)
Definition vs_walk : vstate :=
  mk_vs (nova_init_bdev_blockmap 2 100 [50; 50]) [] [[(9, 11)]; [(9, 9)]]
    (fun ino => if ino =? 18 then Some TIER_BDEV_LOW
                else if (ino =? 19) || (ino =? 22) then Some TIER_PMEM else None).

End Scenarios.


(** * Properties *)

(** ** Facts about range trees shared by the proofs below *)

Module TreeFacts.
Import Bdev RangeTree.

(** Case analysis on the integer comparisons of the goal. *)
Ltac zcmp := repeat match goal with
 | |- context [?a >=? ?b] => destruct (Z.geb_spec a b)
 | |- context [?a >? ?b] => destruct (Z.gtb_spec a b)
 | |- context [?a <? ?b] => destruct (Z.ltb_spec a b)
 | |- context [?a <=? ?b] => destruct (Z.leb_spec a b)
 | |- context [?a =? ?b] => destruct (Z.eqb_spec a b)
 end.

Lemma last_opt_snoc {A} (l : list A) x : last_opt (l ++ [x]) = Some x.
Proof.
  induction l as [|a l IH]; [reflexivity|].
  destruct l as [|b l]; [reflexivity|]. exact IH.
Qed.

Lemma last_opt_some {A} (l : list A) x : last_opt l = Some x -> exists l', l = l' ++ [x].
Proof.
  induction l as [|a l IH]; [discriminate|].
  destruct l as [|b l].
  - intros H; injection H as ->. exists []. reflexivity.
  - intros H. destruct (IH H) as [l' E]. exists (a :: l'). rewrite E. reflexivity.
Qed.

Lemma last_opt_none {A} (l : list A) : last_opt l = None -> l = [].
Proof.
  induction l as [|a l IH]; [reflexivity|].
  destruct l as [|b l]; [discriminate|]. intros H. specialize (IH H). discriminate.
Qed.

Lemma gaps_app l1 x l2 :
  gaps_ok (l1 ++ x :: l2) <->
  gaps_ok l1 /\ last_gap l1 x /\ head_gap x l2 /\ gaps_ok l2.
Proof.
  induction l1 as [|a r IH].
  - unfold last_gap; simpl. tauto.
  - change (gaps_ok ((a :: r) ++ x :: l2)) with
      (head_gap a (r ++ x :: l2) /\ gaps_ok (r ++ x :: l2)).
    rewrite IH. destruct r as [|b r'].
    + unfold last_gap; simpl. tauto.
    + change (last_gap (a :: b :: r') x) with (last_gap (b :: r') x).
      simpl. tauto.
Qed.

Lemma gaps_app_inv l1 l2 : gaps_ok (l1 ++ l2) -> gaps_ok l1 /\ gaps_ok l2.
Proof.
  induction l1 as [|a r IH]; simpl; [tauto|].
  intros [H1 H2]. destruct (IH H2) as [G1 G2]. split; [|exact G2].
  split; [|exact G1]. destruct r; simpl in *; auto.
Qed.

Lemma gaps_head_lt a l :
  gaps_ok (a :: l) -> Forall wf_node l ->
  forall b, In b l -> range_high a + 1 < range_low b.
Proof.
  revert a. induction l as [|c r IH]; intros a G W b Hb; [destruct Hb|].
  destruct G as [G1 G2]. simpl in G1. inversion W as [|? ? Wc Wr]; subst.
  destruct Hb as [<-|Hb]; [exact G1|].
  specialize (IH c G2 Wr b Hb). unfold wf_node in Wc. lia.
Qed.

Lemma gaps_coalesced t : Forall wf_node t -> gaps_ok t -> coalesced t.
Proof.
  intros W G pre a mid b post E. subst t.
  apply gaps_app in G. destruct G as (_ & _ & G1 & G2).
  apply (gaps_head_lt a (mid ++ b :: post)); [split; assumption| |].
  - apply Forall_app in W. destruct W as [_ W]. inversion W; assumption.
  - apply in_or_app. right. left. reflexivity.
Qed.

Lemma single_coalesced c : coalesced [c].
Proof.
  intros pre a mid b post E.
  apply (f_equal (@length _)) in E. rewrite length_app in E. simpl in E.
  rewrite length_app in E. simpl in E. lia.
Qed.

Lemma filter_keep id l :
  ~ In id (ids l) -> filter (fun d => negb (Nat.eqb (rn_id d) id)) l = l.
Proof.
  induction l as [|a r IH]; simpl; intros H; [reflexivity|].
  destruct (Nat.eqb_spec (rn_id a) id); [tauto|]. simpl. f_equal. tauto.
Qed.

Lemma ids_app l1 c l2 : ids (l1 ++ c :: l2) = ids l1 ++ rn_id c :: ids l2.
Proof. unfold ids. rewrite map_app. reflexivity. Qed.

Lemma erase_split pre c post :
  NoDup (ids (pre ++ c :: post)) ->
  rb_erase (rn_id c) (pre ++ c :: post) = pre ++ post.
Proof.
  intros N. rewrite ids_app in N. apply NoDup_remove_2 in N.
  unfold rb_erase. rewrite filter_app. simpl. rewrite Nat.eqb_refl. simpl.
  unfold ids in N. rewrite in_app_iff in N.
  rewrite !filter_keep; [reflexivity| |]; unfold ids; tauto.
Qed.

Lemma map_keep c' l :
  ~ In (rn_id c') (ids l) ->
  map (fun d => if Nat.eqb (rn_id d) (rn_id c') then c' else d) l = l.
Proof.
  induction l as [|a r IH]; simpl; intros H; [reflexivity|].
  destruct (Nat.eqb_spec (rn_id a) (rn_id c')); [tauto|]. f_equal. tauto.
Qed.

Lemma update_split pre c post c' :
  NoDup (ids (pre ++ c :: post)) -> rn_id c' = rn_id c ->
  update_node c' (pre ++ c :: post) = pre ++ c' :: post.
Proof.
  intros N I. rewrite ids_app in N. apply NoDup_remove_2 in N.
  rewrite <- I in N. unfold ids in N. rewrite in_app_iff in N.
  unfold update_node. rewrite map_app. simpl.
  rewrite !map_keep by (unfold ids; tauto). rewrite I, Nat.eqb_refl. reflexivity.
Qed.

Lemma pick_in n w c :
  pick_node n w = PickWhole c \/ pick_node n w = PickPartial c -> In c w.
Proof.
  induction w as [|a w IH]; simpl; [intros [H|H]; discriminate|].
  destruct (csum_ok a); simpl; [|intros; right; auto].
  zcmp; intros [E|E]; try discriminate;
    try (injection E as <-; left; reflexivity); right; auto.
Qed.

Lemma pick_partial_lt n w c : pick_node n w = PickPartial c -> n < node_size c.
Proof.
  induction w as [|a w IH]; simpl; [discriminate|].
  destruct (csum_ok a); simpl; [|auto].
  zcmp; intros E; try discriminate; auto. injection E as <-. lia.
Qed.

Lemma walk_from_in id t x : In x (walk_from id t) -> In x t.
Proof.
  induction t as [|a t IH]; simpl; [auto|].
  destruct (Nat.eqb (rn_id a) id); simpl; auto.
Qed.

Lemma alloc_tree b n nb dir : 0 <= n ->
  let t := block_free_tree b in
  let t' := block_free_tree (snd (nova_alloc_blocks_in_bdev_free_list b n nb dir)) in
  t' = t \/ (exists c, In c t /\ t' = rb_erase (rn_id c) t) \/
  (exists c c', In c t /\ rn_id c' = rn_id c /\ range_low c <= range_low c' /\
     range_high c' <= range_high c /\ range_low c' <= range_high c' /\
     t' = update_node c' t).
Proof.
  intros Hn t t'. subst t t'.
  unfold nova_alloc_blocks_in_bdev_free_list.
  destruct (first_node b) as [fid|]; [|left; reflexivity].
  destruct (num_free_blocks b =? 0); [left; reflexivity|].
  set (w := match dir with
            | ALLOC_FROM_HEAD => walk_from fid (block_free_tree b)
            | ALLOC_FROM_TAIL => match last_node b with
                                 | Some lid => walk_from lid (rev (block_free_tree b))
                                 | None => [] end end).
  assert (Hw : forall x, In x w -> In x (block_free_tree b)).
  { intros x Hx. subst w. destruct dir.
    - eapply walk_from_in; eauto.
    - destruct (last_node b); [|destruct Hx].
      apply in_rev. eapply walk_from_in; eauto. }
  destruct (pick_node n w) as [c|c|] eqn:P.
  - assert (Hc : In c (block_free_tree b)) by (apply Hw, (pick_in n); auto).
    right; left; exists c; split; [exact Hc|].
    repeat match goal with |- context [if ?x then _ else _] => destruct x end;
      reflexivity.
  - assert (Hc : In c (block_free_tree b)) by (apply Hw, (pick_in n); auto).
    pose proof (pick_partial_lt _ _ _ P) as Hlt. unfold node_size in Hlt.
    right; right. destruct dir.
    + exists c, (mk_node (rn_id c) (range_low c + n) (range_high c) true).
      simpl. do 5 (split; [first [exact Hc | reflexivity | lia]|]).
      repeat match goal with |- context [if ?x then _ else _] => destruct x end;
        reflexivity.
    + exists c, (mk_node (rn_id c) (range_low c) (range_high c - n) true).
      simpl. do 5 (split; [first [exact Hc | reflexivity | lia]|]).
      repeat match goal with |- context [if ?x then _ else _] => destruct x end;
        reflexivity.
  - left. repeat match goal with |- context [if ?x then _ else _] => destruct x end;
      reflexivity.
Qed.

Lemma step_inv t t' :
  NoDup (ids t) -> gaps_ok t -> Forall wf_node t ->
  t' = t \/ (exists c, In c t /\ t' = rb_erase (rn_id c) t) \/
  (exists c c', In c t /\ rn_id c' = rn_id c /\ range_low c <= range_low c' /\
     range_high c' <= range_high c /\ range_low c' <= range_high c' /\
     t' = update_node c' t) ->
  NoDup (ids t') /\ gaps_ok t' /\ Forall wf_node t'.
Proof.
  intros N G W [->|[(c & Hc & ->)|(c & c' & Hc & Hid & L1 & L2 & L3 & ->)]];
    [tauto| |].
  - apply in_split in Hc. destruct Hc as (pre & post & ->).
    rewrite erase_split by exact N.
    rewrite ids_app in N. apply NoDup_remove_1 in N.
    apply Forall_app in W. destruct W as [W1 W2]. inversion W2 as [|? ? Wc W3]; subst.
    apply gaps_app in G. destruct G as (G1 & G2 & G3 & G4).
    split; [unfold ids; rewrite map_app; exact N|].
    split; [|apply Forall_app; split; assumption].
    destruct post as [|e post']; [rewrite app_nil_r; exact G1|].
    apply gaps_app. destruct G4 as [G4 G5]. simpl in G3.
    split; [exact G1|]. split; [|tauto].
    unfold last_gap in *. destruct (last_opt pre); [|trivial].
    unfold wf_node in Wc. lia.
  - apply in_split in Hc. destruct Hc as (pre & post & ->).
    rewrite update_split by assumption.
    apply Forall_app in W. destruct W as [W1 W2]. inversion W2 as [|? ? Wc W3]; subst.
    apply gaps_app in G. destruct G as (G1 & G2 & G3 & G4).
    split; [rewrite ids_app in *; rewrite Hid; exact N|].
    split.
    + apply gaps_app. split; [exact G1|]. split.
      * unfold last_gap in *. destruct (last_opt pre); [lia|trivial].
      * split; [|exact G4]. destruct post; simpl in *; [trivial|lia].
    + apply Forall_app. split; [exact W1|]. constructor; [exact L3|exact W3].
Qed.

Lemma shard_alloc_tree b n dir :
  block_free_tree (shard_alloc b n dir) =
  block_free_tree (snd (nova_alloc_blocks_in_bdev_free_list b n 0 dir)).
Proof.
  unfold shard_alloc.
  destruct (nova_alloc_blocks_in_bdev_free_list b n 0 dir) as [[r o] b1].
  destruct (r >? 0); reflexivity.
Qed.

Lemma alloc_small_node b n nb dir c :
  block_free_tree b = [c] -> node_size c < n ->
  nova_alloc_blocks_in_bdev_free_list b n nb dir = (- ENOSPC, nb, b).
Proof.
  intros T S. unfold nova_alloc_blocks_in_bdev_free_list. rewrite T.
  destruct (first_node b) as [fid|]; [|reflexivity].
  destruct (num_free_blocks b =? 0); [reflexivity|].
  assert (P : forall w, (w = [] \/ w = [c]) -> pick_node n w = PickNone).
  { intros w [->| ->]; [reflexivity|]. simpl.
    destruct (csum_ok c); simpl; [|reflexivity]. zcmp; try lia; reflexivity. }
  rewrite P.
  - destruct (num_free_blocks b <? n); reflexivity.
  - destruct dir; simpl.
    + destruct (Nat.eqb (rn_id c) fid); auto.
    + destruct (last_node b); [simpl; destruct (Nat.eqb (rn_id c) n0)|]; auto.
Qed.

Lemma free_empty_window b blocknr n id :
  block_end b < block_start b -> 0 < n -> free_in_bfl b blocknr n id = (- EIO, b).
Proof.
  intros E N. unfold free_in_bfl.
  replace ((blocknr <? block_start b) || (blocknr + n >? block_end b + 1)) with true;
    [reflexivity|].
  symmetry. apply orb_true_iff. destruct (Z.ltb_spec blocknr (block_start b)); [auto|].
  right. apply Z.gtb_lt. lia.
Qed.

Lemma filter_all {A} (f : A -> bool) l : (forall x, In x l -> f x = true) -> filter f l = l.
Proof.
  induction l as [|a l IH]; simpl; intros H; [reflexivity|].
  rewrite H by auto. f_equal. auto.
Qed.

Lemma filter_none {A} (f : A -> bool) l : (forall x, In x l -> f x = false) -> filter f l = [].
Proof.
  induction l as [|a l IH]; simpl; intros H; [reflexivity|].
  rewrite H by auto. auto.
Qed.

Lemma split_filters t lo hi :
  lo <= hi -> gaps_ok t -> Forall wf_node t -> existsb (overlaps lo hi) t = false ->
  t = filter (fun d => range_high d <? lo) t ++ filter (fun d => hi <? range_low d) t.
Proof.
  induction t as [|a r IH]; intros Hlh G W Ov; [reflexivity|].
  simpl in Ov. apply orb_false_iff in Ov. destruct Ov as [Oa Or].
  inversion W as [|? ? Wa Wr]; subst. unfold wf_node in Wa.
  unfold overlaps in Oa. apply andb_false_iff in Oa. simpl.
  destruct Oa as [Oa|Oa]; apply Z.leb_gt in Oa.
  - replace (range_high a <? lo) with false by (symmetry; apply Z.ltb_ge; lia).
    replace (hi <? range_low a) with true by (symmetry; apply Z.ltb_lt; lia).
    pose proof (gaps_head_lt a r G Wr) as Hr.
    rewrite filter_none, filter_all; [reflexivity| |].
    + intros x Hx. specialize (Hr x Hx). apply Z.ltb_lt. lia.
    + intros x Hx. specialize (Hr x Hx). rewrite Forall_forall in Wr.
      specialize (Wr x Hx). unfold wf_node in Wr. apply Z.ltb_ge. lia.
  - replace (range_high a <? lo) with true by (symmetry; apply Z.ltb_lt; lia).
    replace (hi <? range_low a) with false by (symmetry; apply Z.ltb_ge; lia).
    simpl. f_equal. destruct G as [_ G]. auto.
Qed.

Lemma insert_mid L R c :
  Forall (fun a => range_low a < range_low c) L ->
  Forall (fun e => range_low c < range_low e) R ->
  insert_sorted c (L ++ R) = Some (L ++ c :: R).
Proof.
  induction L as [|a L IH]; intros FL FR; simpl.
  - destruct R as [|e R]; [reflexivity|]. inversion FR; subst. simpl.
    replace (range_low c <? range_low e) with true by (symmetry; apply Z.ltb_lt; lia).
    reflexivity.
  - inversion FL; subst.
    replace (range_low c <? range_low a) with false by (symmetry; apply Z.ltb_ge; lia).
    replace (range_low c =? range_low a) with false by (symmetry; apply Z.eqb_neq; lia).
    rewrite IH by assumption. reflexivity.
Qed.

Lemma replace_node pre c post c' :
  NoDup (ids (pre ++ c :: post)) -> gaps_ok (pre ++ c :: post) ->
  Forall wf_node (pre ++ c :: post) -> rn_id c' = rn_id c ->
  last_gap pre c' -> head_gap c' post -> wf_node c' ->
  NoDup (ids (pre ++ c' :: post)) /\ gaps_ok (pre ++ c' :: post) /\
  Forall wf_node (pre ++ c' :: post).
Proof.
  intros N G W Hid L1 H1 Wc'.
  apply gaps_app in G. destruct G as (G1 & _ & _ & G4).
  apply Forall_app in W. destruct W as [W1 W2]. inversion W2 as [|? ? _ W3]; subst.
  split; [rewrite ids_app in *; rewrite Hid; exact N|].
  split; [apply gaps_app; tauto|].
  apply Forall_app. split; [exact W1|]. constructor; assumption.
Qed.

Lemma nodup_insert l1 l2 (x : nat) :
  NoDup (l1 ++ l2) -> ~ In x (l1 ++ l2) -> NoDup (l1 ++ x :: l2).
Proof.
  intros N F. apply (Permutation_NoDup (Permutation_middle l1 l2 x)).
  constructor; assumption.
Qed.

Lemma free_mid_ok L R c :
  tree_inv (L ++ R) -> ~ In (rn_id c) (ids (L ++ R)) -> wf_node c ->
  last_gap L c -> head_gap c R -> tree_inv (L ++ c :: R).
Proof.
  intros (N & G & W) F Wc HL HR.
  apply gaps_app_inv in G as G'. destruct G' as [G1 G2].
  apply Forall_app in W. destruct W as [W1 W2].
  split; [rewrite ids_app; unfold ids in *; rewrite map_app in *;
          apply nodup_insert; assumption|].
  split; [apply gaps_app; tauto|].
  apply Forall_app. split; [exact W1|]. constructor; assumption.
Qed.

Lemma free_left_ok L' p R n :
  tree_inv ((L' ++ [p]) ++ R) -> 0 < n ->
  head_gap (mk_node (rn_id p) (range_low p) (range_high p + n) true) R ->
  tree_inv (update_node (mk_node (rn_id p) (range_low p) (range_high p + n) true)
              ((L' ++ [p]) ++ R)).
Proof.
  rewrite <- app_assoc. simpl. intros (N & G & W) Hn HR.
  rewrite update_split by (auto).
  apply (replace_node L' p R); auto.
  - apply gaps_app in G. unfold last_gap in *. simpl. tauto.
  - apply Forall_app in W. destruct W as [_ W]. inversion W as [|? ? Wp _]; subst.
    unfold wf_node in *. simpl. lia.
Qed.

Lemma free_right_ok L nx R' n :
  tree_inv (L ++ nx :: R') ->
  last_gap L (mk_node (rn_id nx) (range_low nx - n) (range_high nx) true) ->
  range_low nx - n <= range_high nx ->
  tree_inv (update_node (mk_node (rn_id nx) (range_low nx - n) (range_high nx) true)
              (L ++ nx :: R')).
Proof.
  intros (N & G & W) HL Hw.
  rewrite update_split by (auto).
  apply (replace_node L nx R'); auto.
  apply gaps_app in G. destruct R'; simpl in *; tauto.
Qed.

Lemma free_hole_ok L' p nx R' :
  tree_inv ((L' ++ [p]) ++ nx :: R') ->
  tree_inv (update_node (mk_node (rn_id p) (range_low p) (range_high nx) true)
              (rb_erase (rn_id nx) ((L' ++ [p]) ++ nx :: R'))).
Proof.
  intros (N & G & W).
  assert (Er : rb_erase (rn_id nx) ((L' ++ [p]) ++ nx :: R') = L' ++ p :: R').
  { rewrite erase_split by exact N. rewrite <- app_assoc. reflexivity. }
  assert (E : tree_inv (L' ++ p :: R')).
  { rewrite <- Er. apply (step_inv ((L' ++ [p]) ++ nx :: R')); auto. right; left. exists nx.
    split; [apply in_or_app; simpl; auto|reflexivity]. }
  rewrite Er. destruct E as (N' & G' & W').
  rewrite update_split by (auto).
  rewrite <- app_assoc in G, W. simpl in G, W.
  apply gaps_app in G. destruct G as (G1 & G2 & G3 & G4 & G5).
  apply Forall_app in W. destruct W as [_ W]. inversion W as [|? ? Wp W2]; subst.
  inversion W2 as [|? ? Wn _]; subst. unfold wf_node in Wp, Wn. simpl in G3.
  apply (replace_node L' p R'); auto;
    first [ unfold wf_node; simpl; lia
          | destruct R'; simpl in *; [trivial|lia]
          | unfold last_gap in *; simpl; exact G2 ].
Qed.

Lemma free_inv b blocknr n id :
  0 < n -> tree_inv (block_free_tree b) -> ~ In id (ids (block_free_tree b)) ->
  tree_inv (block_free_tree (snd (free_in_bfl b blocknr n id))).
Proof.
  intros Hn Inv F. destruct Inv as (N & G & W).
  destruct b as [tier cpu st en tot nf nbn fn ln tr]. simpl in *.
  unfold free_in_bfl. simpl.
  destruct (_ || _); [simpl; split; tauto|].
  unfold nova_find_free_slot.
  destruct (existsb (overlaps blocknr (blocknr + n - 1)) tr) eqn:Ov;
    [simpl; split; tauto|].
  pose proof (split_filters tr blocknr (blocknr + n - 1) ltac:(lia) G W Ov) as Sp.
  assert (FL : Forall (fun a => range_high a < blocknr)
                 (filter (fun d => range_high d <? blocknr) tr)).
  { apply Forall_forall. intros x Hx. apply filter_In in Hx. apply Z.ltb_lt. tauto. }
  assert (FR : Forall (fun a => blocknr + n - 1 < range_low a)
                 (filter (fun d => blocknr + n - 1 <? range_low d) tr)).
  { apply Forall_forall. intros x Hx. apply filter_In in Hx. apply Z.ltb_lt. tauto. }
  revert Sp FL FR.
  generalize (filter (fun d => range_high d <? blocknr) tr) as L.
  generalize (filter (fun d => blocknr + n - 1 <? range_low d) tr) as R.
  intros R L Sp FL FR. subst tr. clear Ov.
  set (c := mk_node id blocknr (blocknr + n - 1) true).
  assert (Wc : wf_node c) by (unfold wf_node; simpl; lia).
  assert (Inv : tree_inv (L ++ R)) by (split; [|split]; assumption).
  assert (Mid : insert_sorted c (L ++ R) = Some (L ++ c :: R)).
  { apply Forall_app in W. destruct W as [W1 W2]. apply insert_mid.
    - rewrite Forall_forall in *. intros x Hx. specialize (W1 x Hx).
      specialize (FL x Hx). unfold wf_node in W1. simpl. lia.
    - rewrite Forall_forall in *. intros x Hx. specialize (FR x Hx). simpl. lia. }
  rewrite Mid. clear N G W.
  destruct (last_opt L) as [p|] eqn:HL;
    [apply last_opt_some in HL; destruct HL as [L' ->] | apply last_opt_none in HL; subst L].
  - assert (Hp : range_high p < blocknr).
    { apply Forall_app in FL. destruct FL as [_ FL]. inversion FL; assumption. }
    assert (LG : forall x, range_high p + 1 < range_low x -> last_gap (L' ++ [p]) x).
    { intros x Hx. unfold last_gap. rewrite last_opt_snoc. exact Hx. }
    destruct R as [|nx R']; simpl.
    + destruct (Z.eqb_spec blocknr (range_high p + 1)); simpl.
      * apply free_left_ok; simpl; auto.
      * repeat match goal with |- context [if ?x then _ else _] => destruct x end;
          simpl; apply free_mid_ok; simpl; auto; apply LG; simpl; lia.
    + assert (Hx : blocknr + n - 1 < range_low nx) by (inversion FR; assumption).
      destruct (Z.eqb_spec blocknr (range_high p + 1));
        destruct (Z.eqb_spec (blocknr + n - 1 + 1) (range_low nx)); simpl.
      * destruct (is_node ln (rn_id nx)); simpl; apply free_hole_ok; auto.
      * apply free_left_ok; simpl; auto; lia.
      * apply free_right_ok; auto; [apply LG; simpl; lia|].
        destruct Inv as (_ & _ & W). apply Forall_app in W. destruct W as [_ W].
        inversion W as [|? ? Wn _]. unfold wf_node in Wn. lia.
      * simpl; apply free_mid_ok; simpl; auto; [apply LG; simpl; lia|lia].
  - destruct R as [|nx R']; simpl.
    + simpl; apply (free_mid_ok [] []); simpl; auto. exact I.
    + assert (Hx : blocknr + n - 1 < range_low nx) by (inversion FR; assumption).
      destruct (Z.eqb_spec (blocknr + n - 1 + 1) (range_low nx)); simpl.
      * apply (free_right_ok [] nx R'); auto; [unfold last_gap; simpl; trivial|].
        destruct Inv as (_ & _ & W). inversion W as [|? ? Wn _]. unfold wf_node in Wn. lia.
      * simpl; apply (free_mid_ok [] (nx :: R')); simpl; auto; [exact I|lia].
Qed.


Lemma reachable_shape b :
  reachable b ->
  tree_inv (block_free_tree b) \/
  (exists c, block_free_tree b = [c] /\ node_size c <= 0 /\ block_end b < block_start b).
Proof.
  induction 1 as [sbi tier cpu id|b n dir R IH Hn|b blocknr n id R IH Hn F].
  - unfold nova_init_bdev_free_list. simpl.
    set (st := _ + cpu * _). set (tot := nth _ _ _ / _).
    destruct (Z.leb_spec st (st + tot - 1)).
    + left. split; [constructor; [simpl; tauto|constructor]|].
      split; [simpl; tauto|]. constructor; [unfold wf_node; simpl; lia|constructor].
    + right. eexists. split; [reflexivity|]. unfold node_size. simpl. lia.
  - destruct IH as [Inv|(c & T & S & E)].
    + left. rewrite shard_alloc_tree. destruct Inv as (N & G & W).
      apply (step_inv (block_free_tree b)); auto. apply alloc_tree. lia.
    + right. exists c. unfold shard_alloc.
      rewrite (alloc_small_node b n 0 dir c T) by lia. simpl. auto.
  - destruct IH as [Inv|(c & T & S & E)].
    + left. apply free_inv; auto.
    + right. exists c. rewrite free_empty_window by assumption. simpl. auto.
Qed.

Lemma reachable_coalesced b : reachable b -> coalesced (block_free_tree b).
Proof.
  intros R. destruct (reachable_shape b R) as [(N & G & W)|(c & T & _)].
  - apply gaps_coalesced; assumption.
  - rewrite T. apply single_coalesced.
Qed.


Lemma pick_skip n pre w :
  Forall (fun d => csum_ok d = true /\ node_size d < n) pre ->
  pick_node n (pre ++ w) = pick_node n w.
Proof.
  induction pre as [|a pre IH]; intros F; [reflexivity|].
  inversion F as [|? ? [Ca Sa] F']; subst. simpl. rewrite Ca. simpl.
  zcmp; try lia. auto.
Qed.

Lemma rb_next_split pre c post :
  ~ In (rn_id c) (ids pre) -> rb_next (rn_id c) (pre ++ c :: post) = hd_error post.
Proof.
  induction pre as [|a pre IH]; simpl; intros F.
  - rewrite Nat.eqb_refl. destruct post; reflexivity.
  - destruct (Nat.eqb_spec (rn_id a) (rn_id c)); [tauto|]. auto.
Qed.

Lemma hd_error_rev {A} (l : list A) : hd_error (rev l) = last_opt l.
Proof.
  induction l as [|a l IH]; [reflexivity|]. simpl.
  destruct l as [|b l]; [reflexivity|].
  rewrite <- IH. simpl. destruct (rev l ++ [b]) eqn:E; [|reflexivity].
  destruct (rev l); discriminate.
Qed.

Lemma rb_prev_split pre c post :
  ~ In (rn_id c) (ids post) -> rb_prev (rn_id c) (pre ++ c :: post) = last_opt pre.
Proof.
  intros F. unfold rb_prev. rewrite rev_app_distr. simpl. rewrite <- app_assoc. simpl.
  rewrite rb_next_split; [apply hd_error_rev|].
  unfold ids in *. rewrite map_rev. rewrite <- in_rev. exact F.
Qed.

Lemma last_opt_app_cons {A} (l1 : list A) x l2 :
  last_opt (l1 ++ x :: l2) = last_opt (x :: l2).
Proof.
  induction l1 as [|a l1 IH]; [reflexivity|]. simpl.
  destruct (l1 ++ x :: l2) eqn:E; [destruct l1; discriminate|]. exact IH.
Qed.

Lemma last_opt_cons_in {A} (x : A) l y : last_opt (x :: l) = Some y -> In y (x :: l).
Proof.
  revert x. induction l as [|a l IH]; intros x E.
  - injection E as ->. left; reflexivity.
  - right. apply IH. exact E.
Qed.

Lemma first_cases pre c post :
  NoDup (ids (pre ++ c :: post)) ->
  (is_node (option_map rn_id (hd_error (pre ++ c :: post))) (rn_id c) = true /\
   option_map rn_id (rb_next (rn_id c) (pre ++ c :: post)) =
     option_map rn_id (hd_error (pre ++ post))) \/
  (is_node (option_map rn_id (hd_error (pre ++ c :: post))) (rn_id c) = false /\
   option_map rn_id (hd_error (pre ++ c :: post)) =
     option_map rn_id (hd_error (pre ++ post))).
Proof.
  intros N. destruct pre as [|d pre].
  - left. simpl. rewrite Nat.eqb_refl. split; [reflexivity|]. destruct post; reflexivity.
  - right. simpl. split; [|reflexivity].
    simpl in N. inversion N as [|? ? Nd _]; subst.
    apply Nat.eqb_neq. intros E. apply Nd. rewrite E, ids_app.
    apply in_or_app. right. left. reflexivity.
Qed.

Lemma last_cases pre c post :
  NoDup (ids (pre ++ c :: post)) ->
  (is_node (option_map rn_id (last_opt (pre ++ c :: post))) (rn_id c) = true /\
   option_map rn_id (rb_prev (rn_id c) (pre ++ c :: post)) =
     option_map rn_id (last_opt (pre ++ post))) \/
  (is_node (option_map rn_id (last_opt (pre ++ c :: post))) (rn_id c) = false /\
   option_map rn_id (last_opt (pre ++ c :: post)) =
     option_map rn_id (last_opt (pre ++ post))).
Proof.
  intros N. rewrite ids_app in N. apply NoDup_remove_2 in N.
  unfold ids in N. rewrite in_app_iff in N.
  rewrite last_opt_app_cons. destruct post as [|e post].
  - left. simpl. rewrite Nat.eqb_refl. rewrite app_nil_r.
    split; [reflexivity|]. rewrite rb_prev_split by (simpl; tauto). reflexivity.
  - right. rewrite last_opt_app_cons.
    change (last_opt (c :: e :: post)) with (last_opt (e :: post)).
    split; [|reflexivity].
    destruct (last_opt (e :: post)) as [y|] eqn:E; [|reflexivity].
    apply last_opt_cons_in in E. simpl. apply Nat.eqb_neq. intros Ey.
    apply N. right. rewrite <- Ey. apply in_map. exact E.
Qed.

Lemma sum_sizes_app l1 l2 : sum_sizes (l1 ++ l2) = sum_sizes l1 + sum_sizes l2.
Proof. induction l1 as [|a l1 IH]; simpl; [reflexivity|]. rewrite IH. lia. Qed.

Lemma sum_sizes_nonneg l : Forall wf_node l -> 0 <= sum_sizes l.
Proof.
  induction 1 as [|a l Wa _ IH]; simpl; [lia|]. unfold wf_node, node_size in *. lia.
Qed.


Lemma coalesced_before t pre p rest :
  coalesced t -> t = pre ++ p :: rest -> forall x, In x pre -> range_high x + 1 < range_low p.
Proof.
  intros Co E x Hx. apply in_split in Hx. destruct Hx as (l1 & l2 & ->).
  apply (Co l1 x l2 p rest). rewrite E, <- app_assoc. reflexivity.
Qed.

Lemma coalesced_after t pre p rest :
  coalesced t -> t = pre ++ p :: rest -> forall x, In x rest -> range_high p + 1 < range_low x.
Proof.
  intros Co E x Hx. apply in_split in Hx. destruct Hx as (l1 & l2 & ->).
  apply (Co pre p l1 x l2). exact E.
Qed.

Lemma hole_fill b pre p nx post blocknr n id :
  tree_inv (block_free_tree b) ->
  block_free_tree b = pre ++ p :: nx :: post ->
  blocknr = range_high p + 1 -> blocknr + n = range_low nx ->
  block_start b <= blocknr -> blocknr + n <= block_end b + 1 ->
  fst (free_in_bfl b blocknr n id) = 0 /\
  block_free_tree (snd (free_in_bfl b blocknr n id)) =
    pre ++ mk_node (rn_id p) (range_low p) (range_high nx) true :: post.
Proof.
  intros Inv T Hl Hr Hs He.
  pose proof Inv as (N & G & W).
  pose proof (gaps_coalesced _ W G) as Co.
  rewrite T in W. apply Forall_app in W. destruct W as [Wpre W2].
  inversion W2 as [|? ? Wp W3]; inversion W3 as [|? ? Wn Wpost]; subst.
  unfold wf_node in Wp, Wn. rewrite Forall_forall in Wpre, Wpost.
  pose proof (coalesced_before _ pre p (nx :: post) Co T) as Bp.
  pose proof (coalesced_after _ (pre ++ [p]) nx post Co
                ltac:(rewrite T, <- app_assoc; reflexivity)) as An.
  pose proof (Co pre p [] nx post T) as Hpn. simpl in Hpn.
  destruct b as [tier cpu st en tot nf nbn fn ln t]. simpl in *. subst t.
  unfold free_in_bfl. simpl.
  replace ((range_high p + 1 <? st) || (range_high p + 1 + n >? en + 1)) with false
    by (symmetry; apply orb_false_iff; split; [apply Z.ltb_ge | rewrite Z.gtb_ltb; apply Z.ltb_ge]; lia).
  unfold nova_find_free_slot.
  replace (existsb (overlaps (range_high p + 1) (range_high p + 1 + n - 1))
             (pre ++ p :: nx :: post)) with false.
  2:{ symmetry. apply Bool.not_true_iff_false. intros E. apply existsb_exists in E.
      destruct E as (x & Hx & Ov). unfold overlaps in Ov.
      apply andb_true_iff in Ov. destruct Ov as [O1 O2].
      apply Z.leb_le in O1, O2. apply in_app_or in Hx. destruct Hx as [Hx|[<-|[<-|Hx]]].
      - specialize (Bp x Hx). specialize (Wpre x Hx). unfold wf_node in Wpre. lia.
      - lia.
      - lia.
      - specialize (An x Hx). lia. }
  rewrite !filter_app. simpl.
  rewrite (filter_all _ pre), (filter_none _ post), (filter_none (fun d => _ <? _) pre),
          (filter_all (fun d => _ <? _) post).
  - replace (range_high p <? range_high p + 1) with true by (symmetry; apply Z.ltb_lt; lia).
    replace (range_high nx <? range_high p + 1) with false by (symmetry; apply Z.ltb_ge; lia).
    replace (range_high p + 1 + n - 1 <? range_low p) with false
      by (symmetry; apply Z.ltb_ge; lia).
    replace (range_high p + 1 + n - 1 <? range_low nx) with true
      by (symmetry; apply Z.ltb_lt; lia).
    rewrite last_opt_snoc. simpl. rewrite !Z.eqb_refl.
    replace (range_high p + 1 + n - 1 + 1 =? range_low nx) with true
      by (symmetry; apply Z.eqb_eq; lia).
    assert (Er : rb_erase (rn_id nx) ((pre ++ [p]) ++ nx :: post) = pre ++ p :: post).
    { rewrite erase_split by (rewrite <- app_assoc; exact N).
      rewrite <- app_assoc. reflexivity. }
    assert (N' : NoDup (ids (pre ++ p :: post))).
    { rewrite <- Er. destruct (step_inv (pre ++ p :: nx :: post)
        (rb_erase (rn_id nx) ((pre ++ [p]) ++ nx :: post)) N G
        ltac:(rewrite Forall_app; split; [rewrite Forall_forall; exact Wpre|
              constructor; [exact Wp|constructor; [exact Wn|rewrite Forall_forall; exact Wpost]]]))
        as [N' _]; [|exact N'].
      right; left. exists nx. split; [apply in_or_app; simpl; auto|].
      rewrite <- app_assoc. reflexivity. }
    replace (pre ++ p :: nx :: post) with ((pre ++ [p]) ++ nx :: post)
      by (rewrite <- app_assoc; reflexivity).
    rewrite Er, update_split by (auto).
    destruct (is_node ln (rn_id nx)); split; reflexivity.
  - intros x Hx. specialize (An x Hx). apply Z.ltb_lt. lia.
  - intros x Hx. specialize (Bp x Hx). specialize (Wpre x Hx). unfold wf_node in Wpre.
    apply Z.ltb_ge. lia.
  - intros x Hx. specialize (An x Hx). specialize (Wpost x Hx). unfold wf_node in Wpost.
    apply Z.ltb_ge. lia.
  - intros x Hx. specialize (Bp x Hx). apply Z.ltb_lt. lia.
Qed.

End TreeFacts.

(** ** Migration of a single write entry *)

Module MigrationProps.
Import Bdev Migration Scenarios.

(** C1: a successful solo migration of a PMEM entry to tier 1 appends a
    clone whose tier is still PMEM: [nova_clone_write_entry] copies the
    whole entry and only rewrites [entry_type] and [block]; its [tier]
    argument is never stored. *)
Theorem clone_entry_keeps_source_tier :
  let '(ret, st) := migrate_ok false (file_state sbi_two_tiers 0) TIER_PMEM TIER_BDEV_LOW 0 in
  ret = 0 /\ map get_entry_tier (ms_log st) = [TIER_PMEM] /\ TIER_PMEM <> TIER_BDEV_LOW.
Proof. vm_compute. repeat split; discriminate. Qed.

(** C2: when the allocation step fails (tier 1 is full), the entry is left
    with [updating = 1]; the log and its tail are unchanged. *)
Theorem alloc_failure_leaves_updating_set :
  let '(ret, st) := migrate_ok false (file_state sbi_low_full 0) TIER_PMEM TIER_BDEV_LOW 0 in
  ret = - ENOSPC /\ updating (ms_entry st) = 1 /\ ms_log st = [] /\ ms_tail st = 1000.
Proof. vm_compute. repeat split. Qed.

(** C3 (counterexample): an entry with [updating = 1] whose page range is
    not locked is not refused in the Check step: the migration succeeds and
    appends an entry to the log. *)
Theorem updating_entry_not_busy :
  let '(ret, st) := migrate_ok false (file_state sbi_two_tiers 1) TIER_PMEM TIER_BDEV_LOW 0 in
  ret = 0 /\ length (ms_log st) = 1%nat.
Proof. vm_compute. split; reflexivity. Qed.

End MigrationProps.

(** ** Tier allocator *)

Module AllocTierProps.
Import Bdev Scenarios.

(** C4: a request for one block of tier 2 is served from the tier-1 shard
    (its free count drops while tier 2's stays), and the block number
    handed back is 0, outside tier 2's window [150, 199]. *)
Theorem alloc_tier_high_served_by_low_tier :
  let '(ret, b, s) := nova_alloc_block_tier pmem_alloc_ok sbi_two_tiers TIER_BDEV_HIGH ANY_CPU 0 1 0 in
  ret = 1 /\ b = 0
  /\ num_free_blocks (nova_get_bdev_free_list s TIER_BDEV_LOW 0) = 49
  /\ num_free_blocks (nova_get_bdev_free_list s TIER_BDEV_HIGH 0) = 50
  /\ nova_get_bdev_block_start s TIER_BDEV_HIGH = 150
  /\ nova_get_bdev_block_end s TIER_BDEV_HIGH = 199.
Proof. vm_compute. repeat split. Qed.

(** C6: after one successful one-block allocation the shard of tier 1 has
    one node in its tree but [num_blocknode = 2]. *)
Theorem new_blocks_miscounts_blocknodes :
  let '(ret, b, s) := nova_new_blocks_from_bdev sbi_two_tiers TIER_BDEV_LOW 0 1 0 ALLOC_FROM_HEAD 0 in
  let bfl := nova_get_bdev_free_list s TIER_BDEV_LOW 0 in
  ret = 1 /\ length (block_free_tree bfl) = 1%nat /\ num_blocknode bfl = 2.
Proof. vm_compute. repeat split. Qed.

End AllocTierProps.

(** ** Victim selection, downward pass and LRU lists: concrete runs *)

Module VictimScenarioProps.
Import Bdev Victim Profile Scenarios.

(** C8 (counterexample): inode 9 (> 8) has its first write entry on PMEM,
    yet [pop_an_inode_to_migrate] returns no inode: the reserved-range test
    is made on the range index 4, not on the inode number 9. *)
Theorem pop_skips_inode_nine :
  vs_first_entry_tier vs_inode9 9 = Some TIER_PMEM /\
  pop_an_inode_to_migrate vs_inode9 TIER_PMEM 0 = None.
Proof. split; vm_compute; reflexivity. Qed.

(** C10: with PMEM usage low, tier 1 over the threshold and no inode at
    all, the downward pass calls [migrate_a_file] with a NULL inode. *)
Theorem downward_migrates_null_inode :
  is_bdev_usage_high 75 (vs_sbi vs_low_full_no_inode) TIER_BDEV_LOW = true /\
  pop_an_inode_to_migrate vs_low_full_no_inode TIER_BDEV_LOW 0 = None /\
  do_migrate_a_file_downward 75 0 (fun v _ _ _ => v) vs_low_full_no_inode
    = (0, [(None, TIER_BDEV_LOW, TIER_BDEV_HIGH)]).
Proof. repeat split; vm_compute; reflexivity. Qed.

(** C9 (counterexample): updating inode 5 to tier 1 without force or write
    leaves it on the tier-2 list and takes it off the tier-0 list. *)
Theorem update_sih_tier_removes_lower_lists :
  let '(l, sih) := nova_update_sih_tier 2 lru_ino5 (mk_sih 5 2 0) 1 false false in
  In 5 (l 2 1) /\ ~ In 5 (l 0 1) /\ In 5 (lru_ino5 0 1).
Proof. vm_compute. intuition discriminate. Qed.

End VictimScenarioProps.

(** ** First-fit allocation from the head of a shard *)

Module AllocHeadProps.
Import Bdev RangeTree TreeFacts Scenarios.

(** C5: on a shard whose caches point at the extreme nodes and whose
    counter is the sum of the node sizes, an allocation of [n] blocks from
    the head skips the nodes smaller than [n] and stops at the first node
    [c] with [n <= size c]: when [size c = n] the node is erased, the cached
    first and last nodes move to the neighbours, and [low c] is returned;
    when [size c > n] the node's low end advances by [n] and [low c] is
    returned; when every node is smaller than [n] the allocation fails with
    [-ENOSPC] and leaves the shard unchanged, whatever [num_free_blocks]. *)
Theorem alloc_from_head_first_fit (b : bdev_free_list) (n nb : Z) :
  0 < n ->
  NoDup (ids (block_free_tree b)) ->
  Forall wf_node (block_free_tree b) ->
  Forall (fun d => csum_ok d = true) (block_free_tree b) ->
  first_node b = option_map rn_id (hd_error (block_free_tree b)) ->
  last_node b = option_map rn_id (last_opt (block_free_tree b)) ->
  num_free_blocks b = sum_sizes (block_free_tree b) ->
  (forall pre c post,
     block_free_tree b = pre ++ c :: post ->
     Forall (fun d => node_size d < n) pre ->
     (node_size c = n ->
        nova_alloc_blocks_in_bdev_free_list b n nb ALLOC_FROM_HEAD =
        (n, range_low c,
         mk_bfl (bfl_tier b) (bfl_cpu b) (block_start b) (block_end b)
           (num_total_blocks b) (num_free_blocks b - n) (num_blocknode b - 1)
           (option_map rn_id (hd_error (pre ++ post)))
           (option_map rn_id (last_opt (pre ++ post))) (pre ++ post))) /\
     (n < node_size c ->
        nova_alloc_blocks_in_bdev_free_list b n nb ALLOC_FROM_HEAD =
        (n, range_low c,
         mk_bfl (bfl_tier b) (bfl_cpu b) (block_start b) (block_end b)
           (num_total_blocks b) (num_free_blocks b - n) (num_blocknode b)
           (first_node b) (last_node b)
           (pre ++ mk_node (rn_id c) (range_low c + n) (range_high c) true :: post)))) /\
  (Forall (fun d => node_size d < n) (block_free_tree b) ->
   nova_alloc_blocks_in_bdev_free_list b n nb ALLOC_FROM_HEAD = (- ENOSPC, nb, b)).
Proof.
  intros Hn N W C Hf Hl Hs.
  destruct b as [tier cpu st en tot nf nbn fn ln t]. simpl in *. subst fn ln nf.
  assert (Wk : forall fid, option_map rn_id (hd_error t) = Some fid -> walk_from fid t = t).
  { destruct t as [|x r]; simpl; intros fid E; [discriminate|].
    injection E as <-. rewrite Nat.eqb_refl. reflexivity. }
  split.
  - intros pre c post -> Hpre.
    rewrite Forall_app in W, C. destruct W as [Wpre W2], C as [Cpre C2].
    inversion W2 as [|? ? Wc Wpost]; inversion C2 as [|? ? Cc Cpost]; subst.
    assert (Sum : sum_sizes (pre ++ c :: post) =
                  sum_sizes pre + node_size c + sum_sizes post).
    { rewrite sum_sizes_app. simpl. lia. }
    pose proof (sum_sizes_nonneg _ Wpre). pose proof (sum_sizes_nonneg _ Wpost).
    assert (Pk : pick_node n (pre ++ c :: post) = pick_node n (c :: post)).
    { apply pick_skip. rewrite Forall_forall in *. intros x Hx. auto. }
    unfold nova_alloc_blocks_in_bdev_free_list. simpl.
    destruct (option_map rn_id (hd_error (pre ++ c :: post))) as [fid|] eqn:Ef;
      [|destruct pre; discriminate].
    replace (sum_sizes (pre ++ c :: post) =? 0) with false
      by (symmetry; apply Z.eqb_neq; unfold wf_node, node_size in *; lia).
    rewrite (Wk fid eq_refl), Pk. simpl. rewrite Cc. simpl.
    split; intros Sc.
    + replace (n >=? node_size c) with true by (symmetry; apply Z.geb_le; lia).
      replace (n >? node_size c) with false by (symmetry; rewrite Z.gtb_ltb; apply Z.ltb_ge; lia).
      destruct (first_cases pre c post N) as [(E1 & E2)|(E1 & E2)];
      rewrite Ef in E1; simpl in E1; rewrite E1; simpl;
      destruct (last_cases pre c post N) as [(E3 & E4)|(E3 & E4)]; rewrite E3; simpl;
      replace (sum_sizes (pre ++ c :: post) <? node_size c) with false
        by (symmetry; apply Z.ltb_ge; lia);
      rewrite <- ?Ef, ?E2, ?E4, erase_split by exact N; rewrite Sc; reflexivity.
    + replace (n >=? node_size c) with false by (symmetry; rewrite Z.geb_leb; apply Z.leb_gt; lia).
      simpl. replace (sum_sizes (pre ++ c :: post) <? n) with false
        by (symmetry; apply Z.ltb_ge; lia).
      rewrite update_split by (auto). rewrite <- Ef. reflexivity.
  - intros Hall. unfold nova_alloc_blocks_in_bdev_free_list. simpl.
    destruct (option_map rn_id (hd_error t)) as [fid|] eqn:Ef; [|reflexivity].
    destruct (sum_sizes t =? 0); [reflexivity|].
    rewrite (Wk fid eq_refl).
    replace (pick_node n t) with PickNone.
    + simpl. destruct (sum_sizes t <? n); reflexivity.
    + rewrite <- (app_nil_r t), pick_skip; [reflexivity|].
      rewrite Forall_forall in *. intros x Hx. auto.
Qed.

(** Both outcomes on a shard with runs of 2 and 3 blocks: 4 blocks are
    refused although 5 are free, 3 blocks are served by the second run. *)
Lemma alloc_from_head_first_fit_witness :
  num_free_blocks bfl_two_runs = 5 /\
  nova_alloc_blocks_in_bdev_free_list bfl_two_runs 4 0 ALLOC_FROM_HEAD =
    (- ENOSPC, 0, bfl_two_runs) /\
  nova_alloc_blocks_in_bdev_free_list bfl_two_runs 3 0 ALLOC_FROM_HEAD =
    (3, 20, mk_bfl TIER_BDEV_LOW 0 10 29 20 2 1 (Some 0%nat) (Some 0%nat)
              [mk_node 0 10 11 true]).
Proof.
  split; [reflexivity|]. split.
  - apply (proj2 (alloc_from_head_first_fit bfl_two_runs 4 0 ltac:(lia)
      ltac:(vm_compute; repeat constructor; simpl; intuition discriminate)
      ltac:(repeat constructor; unfold wf_node; simpl; lia)
      ltac:(repeat constructor) eq_refl eq_refl eq_refl)).
    repeat constructor.
  - destruct (proj1 (alloc_from_head_first_fit bfl_two_runs 3 0 ltac:(lia)
      ltac:(vm_compute; repeat constructor; simpl; intuition discriminate)
      ltac:(repeat constructor; unfold wf_node; simpl; lia)
      ltac:(repeat constructor) eq_refl eq_refl eq_refl)
      [mk_node 0 10 11 true] (mk_node 1 20 22 true) [] eq_refl
      ltac:(repeat constructor)) as [Hw _].
    rewrite (Hw eq_refl). reflexivity.
Defined.

End AllocHeadProps.

(** ** Coalescing on the free path *)

Module CoalesceProps.
Import Bdev RangeTree TreeFacts Scenarios.

(** C7: in every shard reachable from mount by allocations and frees, any
    node [a] before any node [b] satisfies [a.high + 1 < b.low]; and
    freeing the exact hole between two neighbouring nodes [p] and [nx] of
    such a shard (inside the shard's window) succeeds and replaces them by
    the single node [p.low, nx.high]. *)
Theorem free_keeps_tree_coalesced :
  (forall b, reachable b -> coalesced (block_free_tree b)) /\
  (forall b pre p nx post blocknr n id,
     reachable b ->
     block_free_tree b = pre ++ p :: nx :: post ->
     blocknr = range_high p + 1 -> blocknr + n = range_low nx ->
     block_start b <= blocknr -> blocknr + n <= block_end b + 1 ->
     fst (free_in_bfl b blocknr n id) = 0 /\
     block_free_tree (snd (free_in_bfl b blocknr n id)) =
       pre ++ mk_node (rn_id p) (range_low p) (range_high nx) true :: post).
Proof.
  split; [exact reachable_coalesced|].
  intros b pre p nx post blocknr n id R T Hl Hr Hs He.
  destruct (reachable_shape b R) as [Inv|(c & T' & _)].
  - apply hole_fill; assumption.
  - rewrite T in T'. apply (f_equal (@length _)) in T'.
    rewrite length_app in T'. simpl in T'. lia.
Qed.

(** The hole [101, 102] of [shard_holey] is filled into one node. *)
Lemma free_keeps_tree_coalesced_witness :
  reachable shard_holey /\ coalesced (block_free_tree shard_holey) /\
  fst (free_in_bfl shard_holey 101 2 6%nat) = 0 /\
  block_free_tree (snd (free_in_bfl shard_holey 101 2 6%nat)) = [mk_node 5 100 149 true].
Proof.
  assert (R : reachable shard_holey).
  { unfold shard_holey. apply reach_free; [apply reach_alloc; [apply reach_init|lia]|lia|].
    vm_compute. intuition discriminate. }
  split; [exact R|]. split; [exact (proj1 free_keeps_tree_coalesced _ R)|].
  exact (proj2 free_keeps_tree_coalesced shard_holey [] (mk_node 5 100 100 true)
           (mk_node 0 103 149 true) [] 101 2 6%nat R
           ltac:(vm_compute; reflexivity) eq_refl eq_refl
           ltac:(vm_compute; discriminate) ltac:(vm_compute; discriminate)).
Defined.

End CoalesceProps.

(** ** The Check step of the migration engine *)

Module CheckProps.
Import Bdev Migration Scenarios.

(** [is_entry_busy] does not read [updating]. *)
Lemma is_entry_busy_updating locked b2v e u :
  is_entry_busy locked b2v (set_updating e u) = is_entry_busy locked b2v e.
Proof. destruct e; reflexivity. Qed.

Section Check.
Variable entry_csum : nova_file_write_entry -> Z.
Variable pmem_alloc : Z -> Z -> Z -> Z * Z.
Variable locked : Z -> Z -> bool.
Variable b2v raw : Z -> Z.
Variable wr rd : Z -> Z -> Z -> Z.
Variable flush : Z.
Variable append : Z -> option Z.
Variable blk cpu : Z.

(** C3 (as the code has it): the Check step answers BUSY ([-1]) exactly
    when the entry is on [from] and [is_entry_busy] holds, i.e. the entry is
    on a block-device tier whose vpmem range is write-locked; the state is
    then returned unchanged.  [E.updating] is never consulted: the return
    value of a migration is the same whatever [E.updating] holds. *)
Theorem check_busy_ignores_updating (st : mig_state) (from to hint u : Z) :
  (get_entry_tier (ms_entry st) = from ->
   is_entry_busy locked b2v (ms_entry st) = true ->
   migrate_entry_blocks entry_csum pmem_alloc locked b2v raw wr rd flush append blk cpu
     st from to hint = (-1, st)) /\
  fst (migrate_entry_blocks entry_csum pmem_alloc locked b2v raw wr rd flush append blk cpu
         (set_ms_entry st (set_updating (ms_entry st) u)) from to hint) =
  fst (migrate_entry_blocks entry_csum pmem_alloc locked b2v raw wr rd flush append blk cpu
         st from to hint).
Proof.
  split.
  - intros Ht Hb. unfold migrate_entry_blocks. rewrite Ht, Z.eqb_refl, Hb. reflexivity.
  - unfold migrate_entry_blocks.
    replace (ms_entry (set_ms_entry st (set_updating (ms_entry st) u)))
      with (set_updating (ms_entry st) u) by (destruct st; reflexivity).
    rewrite is_entry_busy_updating.
    replace (get_entry_tier (set_updating (ms_entry st) u))
      with (get_entry_tier (ms_entry st)) by (destruct (ms_entry st); reflexivity).
    destruct (negb (get_entry_tier (ms_entry st) =? from)); [reflexivity|].
    destruct (is_entry_busy locked b2v (ms_entry st)); [reflexivity|].
    destruct st as [sbi [ty ti up np bl pg mt ep sc cs] lg tl ib tr]. reflexivity.
Qed.
End Check.

(** A write-locked entry of tier 1 is refused, and a PMEM entry with
    [updating = 1] migrates with the same result as with [updating = 0]. *)
Lemma check_busy_ignores_updating_witness :
  migrate_ok true bdev_file_state TIER_BDEV_LOW TIER_BDEV_HIGH 0 = (-1, bdev_file_state) /\
  fst (migrate_ok false (file_state sbi_two_tiers 1) TIER_PMEM TIER_BDEV_LOW 0) =
  fst (migrate_ok false (file_state sbi_two_tiers 0) TIER_PMEM TIER_BDEV_LOW 0).
Proof.
  unfold migrate_ok. split.
  - apply (proj1 (check_busy_ignores_updating _ _ _ _ _ _ _ _ _ _ _
                   bdev_file_state TIER_BDEV_LOW TIER_BDEV_HIGH 0 0)); reflexivity.
  - exact (proj2 (check_busy_ignores_updating _ _ _ _ _ _ _ _ _ _ _
                   (file_state sbi_two_tiers 0) TIER_PMEM TIER_BDEV_LOW 0 1)).
Defined.

End CheckProps.

(** ** Victim selection *)

Module PopProps.
Import Bdev Victim Scenarios.

Lemma zrange_in lo hi k : In k (zrange lo hi) -> lo <= k <= hi.
Proof.
  unfold zrange. intros H. apply in_map_iff in H. destruct H as (i & <- & Hi).
  apply in_seq in Hi. lia.
Qed.

Lemma scan_range_some vs tier j ks ino :
  scan_range vs tier j ks = Some ino ->
  exists k, In k ks /\ 8 < k /\ ino = k * cpus (vs_sbi vs) + j /\
            vs_first_entry_tier vs ino = Some tier.
Proof.
  induction ks as [|k r IH]; simpl; [discriminate|].
  destruct (Z.leb_spec k 8).
  - intros H'. destruct (IH H') as (k' & ? & ? & ? & ?). exists k'. tauto.
  - destruct (vs_first_entry_tier vs (k * cpus (vs_sbi vs) + j)) as [t|] eqn:Et;
      [|discriminate].
    destruct (Z.eqb_spec t tier).
    + intros E. injection E as <-. exists k. subst t. tauto.
    + intros H'. destruct (IH H') as (k' & ? & ? & ? & ?). exists k'. tauto.
Qed.

Lemma scan_nodes_some vs tier j nodes ino :
  scan_nodes vs tier j nodes = Some ino ->
  exists lo hi k, In (lo, hi) nodes /\ lo <= k <= hi /\ 8 < k /\
    ino = k * cpus (vs_sbi vs) + j /\ vs_first_entry_tier vs ino = Some tier.
Proof.
  induction nodes as [|[lo hi] r IH]; simpl; [discriminate|].
  destruct (scan_range vs tier j (zrange lo hi)) as [i|] eqn:Es.
  - intros E. injection E as <-. destruct (scan_range_some _ _ _ _ _ Es) as (k & Hk & ?).
    exists lo, hi, k. apply zrange_in in Hk. tauto.
  - intros H'. destruct (IH H') as (lo' & hi' & k & ?). exists lo', hi', k. tauto.
Qed.

Lemma first_match_app (P : Z -> Prop) (o1 o2 : option Z) (l1 l2 : list Z) :
  first_match P o1 l1 -> (o1 = None -> first_match P o2 l2) ->
  first_match P (match o1 with Some x => Some x | None => o2 end) (l1 ++ l2).
Proof.
  destruct o1 as [x|]; cbn.
  - intros (pre & post & -> & Hx & Hpre) _. exists pre, (post ++ l2).
    rewrite <- app_assoc. auto.
  - intros H1 H2. specialize (H2 eq_refl). destruct o2 as [x|]; cbn in *.
    + destruct H2 as (pre & post & -> & Hx & Hpre). exists (l1 ++ pre), post.
      rewrite app_assoc. split; [reflexivity|]. split; [exact Hx|].
      apply Forall_app; auto.
    + apply Forall_app; auto.
Qed.

Lemma scan_range_first vs tier j ks :
  first_match (fun ino => vs_first_entry_tier vs ino = Some tier)
    (scan_range vs tier j ks) (range_visits vs j ks).
Proof.
  induction ks as [|k r IH]; cbn [scan_range range_visits]; [constructor|].
  destruct (k <=? 8); [exact IH|].
  destruct (vs_first_entry_tier vs (k * cpus (vs_sbi vs) + j)) as [t|] eqn:Et.
  - destruct (Z.eqb_spec t tier) as [<-|Ne].
    + exists [], (range_visits vs j r). auto.
    + assert (Hno : vs_first_entry_tier vs (k * cpus (vs_sbi vs) + j) <> Some tier)
        by congruence.
      destruct (scan_range vs tier j r) as [x|]; cbn in *.
      * destruct IH as (pre & post & -> & Hx & Hpre).
        exists (k * cpus (vs_sbi vs) + j :: pre), post. auto.
      * constructor; auto.
  - cbn. constructor; [congruence|constructor].
Qed.

Lemma scan_nodes_first vs tier j nodes :
  first_match (fun ino => vs_first_entry_tier vs ino = Some tier)
    (scan_nodes vs tier j nodes) (node_visits vs j nodes).
Proof.
  induction nodes as [|[lo hi] r IH]; [constructor|].
  cbn [scan_nodes]. unfold node_visits. cbn [flat_map fst snd].
  apply first_match_app; [apply scan_range_first|]. intros _. exact IH.
Qed.

(** C8 (as the code has it): [pop_victim(tier)] returns the first inode of
    its walk whose first write entry is on [tier], and no inode when there
    is none. The walk ([pop_visit_order]) goes over the shards round-robin
    from the current cpu's shard and over their range nodes in order; in a
    node it looks up [k * cpus + j] for the range indexes [k > 8] and leaves
    the node at the first NULL lookup. So a returned inode is [k * cpus + j]
    for a shard [j] and a range index [k > 8] of a range node of shard [j]:
    the reserved-range filter applies to [k], not to the inode number. *)
Theorem pop_returns_filtered_candidate (vs : vstate) (tier cur_cpu : Z) :
  0 < cpus (vs_sbi vs) ->
  first_match (fun ino => vs_first_entry_tier vs ino = Some tier)
    (pop_an_inode_to_migrate vs tier cur_cpu) (pop_visit_order vs cur_cpu) /\
  forall ino, pop_an_inode_to_migrate vs tier cur_cpu = Some ino ->
  exists j k lo hi,
    0 <= j < cpus (vs_sbi vs) /\ 8 < k /\ ino = k * cpus (vs_sbi vs) + j /\
    In (lo, hi) (nth (Z.to_nat j) (vs_inode_maps vs) []) /\ lo <= k <= hi.
Proof.
  intros Hn. split.
  - unfold pop_an_inode_to_migrate, pop_visit_order.
    induction (map (fun i => cur_cpu + i) (zseq (cpus (vs_sbi vs)))) as [|jj r IH];
      [constructor|].
    cbn [flat_map]. apply first_match_app; [apply scan_nodes_first|]. intros _. exact IH.
  - intros ino. unfold pop_an_inode_to_migrate.
    generalize (map (fun i => cur_cpu + i) (zseq (cpus (vs_sbi vs)))) as l.
    induction l as [|jj r IH]; simpl; [discriminate|].
    destruct (scan_nodes vs tier (jj mod cpus (vs_sbi vs)) _) as [i|] eqn:Es; [|exact IH].
    intros E. injection E as <-.
    destruct (scan_nodes_some _ _ _ _ _ Es) as (lo & hi & k & Hin & Hk & H8 & Hi & Ht).
    exists (jj mod cpus (vs_sbi vs)), k, lo, hi.
    pose proof (Z.mod_pos_bound jj (cpus (vs_sbi vs)) Hn). tauto.
Qed.

(** Popping a PMEM inode from cpu 0 in [vs_walk] looks up inodes 18 (tier
    1) and 20 (NULL, which ends shard 0's node, so inode 22 is skipped) and
    returns inode 19 = 9 * 2 + 1 of shard 1. *)
Lemma pop_returns_filtered_candidate_witness :
  pop_visit_order vs_walk 0 = [18; 20; 19] /\
  pop_an_inode_to_migrate vs_walk TIER_PMEM 0 = Some 19 /\
  first_match (fun ino => vs_first_entry_tier vs_walk ino = Some TIER_PMEM)
    (Some 19) [18; 20; 19] /\
  exists j k lo hi,
    0 <= j < cpus (vs_sbi vs_walk) /\ 8 < k /\ 19 = k * cpus (vs_sbi vs_walk) + j /\
    In (lo, hi) (nth (Z.to_nat j) (vs_inode_maps vs_walk) []) /\ lo <= k <= hi.
Proof.
  assert (V : pop_visit_order vs_walk 0 = [18; 20; 19]) by (vm_compute; reflexivity).
  assert (E : pop_an_inode_to_migrate vs_walk TIER_PMEM 0 = Some 19)
    by (vm_compute; reflexivity).
  destruct (pop_returns_filtered_candidate vs_walk TIER_PMEM 0
              ltac:(vm_compute; reflexivity)) as [H1 H2].
  rewrite E, V in H1.
  split; [exact V|]. split; [exact E|]. split; [exact H1|]. exact (H2 19 E).
Defined.

End PopProps.

(** ** Inode LRU lists *)

Module LruProps.
Import Bdev Profile Scenarios.

Lemma filter_idem (f : Z -> bool) l : filter f (filter f l) = filter f l.
Proof.
  induction l as [|a l IH]; simpl; [reflexivity|].
  destruct (f a) eqn:E; simpl; [rewrite E, IH|]; auto.
Qed.

(** [nova_remove_inode_lru_list] as a closed form. *)
Lemma remove_fold (is : list Z) (l0 : lru_lists) cpu ino t c :
  fold_left (fun l' i => list_del_ino l' i cpu ino) is l0 t c =
  if (c =? cpu) && existsb (Z.eqb t) is
  then filter (fun x => negb (x =? ino)) (l0 t c) else l0 t c.
Proof.
  revert l0. induction is as [|i is IH]; intros l0; cbn [fold_left existsb].
  - rewrite andb_false_r. reflexivity.
  - rewrite IH. clear IH. unfold list_del_ino, set_list.
    destruct (Z.eqb_spec c cpu) as [->|Hc]; cbn [andb]; [|rewrite andb_false_r; reflexivity].
    rewrite andb_true_r.
    destruct (Z.eqb_spec t i) as [->|Ht]; cbn [orb];
      destruct (existsb (Z.eqb _) is); rewrite ?filter_idem; reflexivity.
Qed.

Lemma existsb_zseq t n :
  existsb (Z.eqb t) (zseq n) = (0 <=? t) && (t <? n).
Proof.
  apply eq_true_iff_eq. rewrite existsb_exists, andb_true_iff, Z.leb_le, Z.ltb_lt.
  unfold zseq. split.
  - intros (x & Hx & E). apply Z.eqb_eq in E. subst x.
    apply in_map_iff in Hx. destruct Hx as (i & <- & Hi). apply in_seq in Hi. lia.
  - intros Ht. exists t. split; [|apply Z.eqb_refl].
    apply in_map_iff. exists (Z.to_nat t). split; [lia|]. apply in_seq. lia.
Qed.

(** C9 (as the code has it): [update_sih_tier(sih, tier, false, false)]
    removes the inode from its cpu's lists of the tiers [0 .. tier], appends
    it to the tail of the [(tier, cpu)] list, leaves every other list
    unchanged (those of the tiers above [tier] included), raises [ltier] to
    [tier] and [htier] to the new [ltier]. *)
Theorem update_sih_tier_plain (ncpus : Z) (l : lru_lists) (sih : nova_inode_info_header)
    (tier : Z) :
  0 <= tier ->
  (forall i c,
     fst (nova_update_sih_tier ncpus l sih tier false false) i c =
     if (c =? sih_ino sih mod ncpus) && (0 <=? i) && (i <=? tier) then
       let base := filter (fun x => negb (x =? sih_ino sih)) (l i c) in
       if i =? tier then base ++ [sih_ino sih] else base
     else l i c) /\
  sih_ino (snd (nova_update_sih_tier ncpus l sih tier false false)) = sih_ino sih /\
  ltier (snd (nova_update_sih_tier ncpus l sih tier false false)) = Z.max (ltier sih) tier /\
  htier (snd (nova_update_sih_tier ncpus l sih tier false false)) =
    Z.max (htier sih) (Z.max (ltier sih) tier).
Proof.
  intros Ht. unfold nova_update_sih_tier. simpl. split; [|split; [reflexivity|split]].
  - intros i c. unfold list_add_tail_ino, set_list, nova_remove_inode_lru_list.
    rewrite !remove_fold, !existsb_zseq, Z.eqb_refl.
    destruct (Z.eqb_spec i tier); destruct (Z.eqb_spec c (sih_ino sih mod ncpus));
      subst; simpl; rewrite ?andb_true_r, ?andb_false_r; simpl.
    + replace ((0 <=? tier) && (tier <? tier + 1)) with true
        by (symmetry; apply andb_true_iff; split; [apply Z.leb_le|apply Z.ltb_lt]; lia).
      replace ((0 <=? tier) && (tier <=? tier)) with true
        by (symmetry; apply andb_true_iff; split; apply Z.leb_le; lia).
      reflexivity.
    + reflexivity.
    + replace (i <? tier + 1) with (i <=? tier)
        by (apply eq_true_iff_eq; rewrite Z.ltb_lt, Z.leb_le; lia).
      destruct ((0 <=? i) && (i <=? tier)); reflexivity.
    + reflexivity.
  - destruct (Z.ltb_spec (ltier sih) tier); lia.
  - destruct (Z.ltb_spec (ltier sih) tier);
      [destruct (Z.ltb_spec (htier sih) tier) | destruct (Z.ltb_spec (htier sih) (ltier sih))];
      lia.
Qed.

(** Inode 5 (cpu 1 of 2) moved to tier 1: it leaves the list of tier 0,
    ends the list of tier 1 and stays on the list of tier 2. *)
Lemma update_sih_tier_plain_witness :
  fst (nova_update_sih_tier 2 lru_ino5 (mk_sih 5 0 0) 1 false false) 0 1 = [] /\
  fst (nova_update_sih_tier 2 lru_ino5 (mk_sih 5 0 0) 1 false false) 1 1 = [5] /\
  fst (nova_update_sih_tier 2 lru_ino5 (mk_sih 5 0 0) 1 false false) 2 1 = [5] /\
  ltier (snd (nova_update_sih_tier 2 lru_ino5 (mk_sih 5 0 0) 1 false false)) = 1.
Proof.
  destruct (update_sih_tier_plain 2 lru_ino5 (mk_sih 5 0 0) 1 ltac:(lia))
    as (H & _ & Hl & _).
  rewrite !H, Hl. vm_compute. repeat split.
Defined.

End LruProps.

Module ProfProps.
Import Bdev Migration Profile Prof LruProps ExtraScenarios.


Lemma land_low63 w : 0 <= w -> Z.land w (Z.shiftl 1 63 - 1) = w mod 2 ^ 63.
Proof.
  intros Hw. rewrite Z.shiftl_1_l. rewrite <- Z.land_ones by lia.
  unfold Z.ones. rewrite Z.shiftl_1_l. reflexivity.
Qed.

Lemma judge_sync_spec (w : Z) :
  0 <= w ->
  fst (nova_sih_judge_sync w) = (2 ^ 20 <=? w mod 2 ^ 63) /\
  nova_sih_is_sync (snd (nova_sih_judge_sync w)) = fst (nova_sih_judge_sync w) /\
  (snd (nova_sih_judge_sync w) = 0 \/ snd (nova_sih_judge_sync w) = 2 ^ 63).
Proof.
  intros Hw. unfold nova_sih_judge_sync. rewrite land_low63 by exact Hw.
  unfold SYNC_BIT. rewrite Z.shiftr_div_pow2 by lia.
  pose proof (Z.mod_pos_bound w (2 ^ 63) ltac:(lia)) as B.
  destruct (Z.eqb_spec (w mod 2 ^ 63 / 2 ^ 20) 0) as [E|E].
  - apply Z.div_small_iff in E; [|lia].
    simpl. split; [symmetry; apply Z.leb_gt; lia|]. split; [reflexivity|]. auto.
  - assert (2 ^ 20 <= w mod 2 ^ 63).
    { destruct (Z.le_gt_cases (2 ^ 20) (w mod 2 ^ 63)) as [|L]; [assumption|].
      exfalso. apply E. apply Z.div_small. lia. }
    simpl. split; [symmetry; apply Z.leb_le; lia|]. split; [reflexivity|]. auto.
Qed.

(** X1: for a 64-bit [wcount], [nova_sih_judge_sync] answers "sync" exactly
    when the count without its top bit is at least [2^SYNC_BIT] (1 MiB); it
    resets [wcount] to [0] on "async" and to [1 << 63] on "sync", so that
    [nova_sih_is_sync] of the new [wcount] repeats the verdict. *)
Theorem judge_sync_then_is_sync (w : Z) :
  0 <= w ->
  fst (nova_sih_judge_sync w) = (2 ^ 20 <=? w mod 2 ^ 63) /\
  nova_sih_is_sync (snd (nova_sih_judge_sync w)) = fst (nova_sih_judge_sync w) /\
  (snd (nova_sih_judge_sync w) = 0 \/ snd (nova_sih_judge_sync w) = 2 ^ 63).
Proof. exact (judge_sync_spec w). Qed.

(** The verdict on a counter with the sync bit set and one more MiB
    written. *)
Lemma judge_sync_then_is_sync_witness :
  0 <= 2 ^ 63 + 2 ^ 20 /\
  fst (nova_sih_judge_sync (2 ^ 63 + 2 ^ 20)) = (2 ^ 20 <=? (2 ^ 63 + 2 ^ 20) mod 2 ^ 63) /\
  nova_sih_is_sync (snd (nova_sih_judge_sync (2 ^ 63 + 2 ^ 20))) =
    fst (nova_sih_judge_sync (2 ^ 63 + 2 ^ 20)) /\
  (snd (nova_sih_judge_sync (2 ^ 63 + 2 ^ 20)) = 0 \/
   snd (nova_sih_judge_sync (2 ^ 63 + 2 ^ 20)) = 2 ^ 63).
Proof. split; [lia|]. apply (judge_sync_then_is_sync (2 ^ 63 + 2 ^ 20)). lia. Defined.

Lemma increase_step now m w len :
  now - m <= 30 -> 0 <= w < 2 ^ 64 -> 0 <= len -> w mod 2 ^ 63 + len < 2 ^ 62 ->
  snd (nova_sih_increase_wcount now m w len) = w + len /\
  (w + len) mod 2 ^ 63 = w mod 2 ^ 63 + len /\ w + len < 2 ^ 64.
Proof.
  intros Ht Hw Hl Hs. unfold nova_sih_increase_wcount, is_wcount_time_out.
  replace (now - m >? 30) with false by (symmetry; rewrite Z.gtb_ltb; apply Z.ltb_ge; lia).
  pose proof (Z.div_mod w (2 ^ 63) ltac:(lia)) as D.
  pose proof (Z.mod_pos_bound w (2 ^ 63) ltac:(lia)) as B.
  assert (Q : w / 2 ^ 63 = 0 \/ w / 2 ^ 63 = 1).
  { assert (0 <= w / 2 ^ 63 < 2) by (split; [apply Z.div_pos|apply Z.div_lt_upper_bound]; lia). lia. }
  set (q := w / 2 ^ 63) in *. set (r := w mod 2 ^ 63) in *.
  assert (S62 : Z.shiftr w 62 = 2 * q).
  { rewrite Z.shiftr_div_pow2 by lia. rewrite D.
    replace (2 ^ 63 * q + r) with (r + (2 * q) * 2 ^ 62) by (change (2 ^ 63) with (2 * 2 ^ 62); ring).
    rewrite Z.div_add by lia. rewrite Z.div_small by lia. lia. }
  rewrite S62. replace (2 * q =? 1) with false by (symmetry; apply Z.eqb_neq; lia).
  simpl. unfold u64. assert (w + len < 2 ^ 64) by lia.
  rewrite Z.mod_small by lia. split; [reflexivity|]. split; [|lia].
  rewrite D. replace (2 ^ 63 * q + r + len) with ((r + len) + q * 2 ^ 63) by ring.
  rewrite Z.mod_add, Z.mod_small by lia. reflexivity.
Qed.

(** X2: as long as every write comes within 30 seconds of the inode's
    [i_mtime] and the count stays below [2^62], [nova_sih_increase_wcount]
    adds up the bytes written on top of the initial count, and the next
    [nova_sih_judge_sync] answers "sync" exactly when the count without its
    top bit has reached [2^SYNC_BIT]. *)
Theorem wcount_counts_bytes_until_judged (w0 : Z) (writes : list (Z * Z * Z)) :
  0 <= w0 < 2 ^ 64 ->
  Forall (fun '(now, m, len) => now - m <= 30 /\ 0 <= len) writes ->
  w0 mod 2 ^ 63 + fold_right (fun '(_, _, len) acc => len + acc) 0 writes < 2 ^ 62 ->
  run_writes w0 writes = w0 + fold_right (fun '(_, _, len) acc => len + acc) 0 writes /\
  fst (nova_sih_judge_sync (run_writes w0 writes)) =
    (2 ^ 20 <=? w0 mod 2 ^ 63 + fold_right (fun '(_, _, len) acc => len + acc) 0 writes).
Proof.
  intros Hw0 F S.
  assert (G : run_writes w0 writes = w0 + fold_right (fun '(_, _, len) acc => len + acc) 0 writes /\
              (run_writes w0 writes) mod 2 ^ 63 =
                w0 mod 2 ^ 63 + fold_right (fun '(_, _, len) acc => len + acc) 0 writes /\
              run_writes w0 writes < 2 ^ 64).
  { revert w0 Hw0 S. induction F as [|[[now m] len] ws [Ht Hl] F IH]; intros w0 Hw0 S.
    - simpl in *. repeat split; lia.
    - simpl in S. unfold run_writes. simpl.
      assert (0 <= fold_right (fun '(_, _, len) acc => len + acc) 0 ws).
      { clear -F. induction F as [|[[? ?] ?] ? [? ?] ? IH]; simpl; lia. }
      destruct (increase_step now m w0 len Ht Hw0 Hl ltac:(lia)) as (E1 & E2 & E3).
      rewrite E1. fold (run_writes (w0 + len) ws).
      destruct (IH (w0 + len) ltac:(lia) ltac:(lia)) as (I1 & I2 & I3).
      rewrite I1 in I2, I3 |- *. repeat split; lia. }
  assert (0 <= fold_right (fun '(_, _, len) acc => len + acc) 0 writes).
  { clear -F. induction F as [|[[? ?] ?] ? [? ?] ? IH]; simpl; lia. }
  destruct G as (G1 & G2 & G3). split; [exact G1|].
  rewrite (proj1 (judge_sync_spec (run_writes w0 writes) ltac:(lia))), G2. reflexivity.
Qed.


(** X3: when [nova_get_prev_seq_count] returns a nonzero count, that count
    is [seq_count + 1] of an entry found at [pgoff] or at the midpoint
    [pgoff + num_pages/2], written less than 30 seconds ago, and whose pages
    cover the midpoint of the new write. *)
Theorem prev_seq_count_covers_midpoint
    (find : Z -> option nova_file_write_entry) (now pgoff n : Z) :
  (forall i e, find i = Some e ->
     0 <= Migration.pgoff e /\ 1 <= Migration.num_pages e /\
     Migration.pgoff e + Migration.num_pages e < 2 ^ 64) ->
  0 <= pgoff -> 1 <= n -> pgoff + n < 2 ^ 64 ->
  nova_get_prev_seq_count find now pgoff n <> 0 ->
  exists e, (find pgoff = Some e \/ find (pgoff + n / 2) = Some e) /\
    is_entry_time_out now e = false /\
    nova_get_prev_seq_count find now pgoff n = u32 (seq_count e + 1) /\
    Migration.pgoff e <= pgoff + n / 2 <= Migration.pgoff e + Migration.num_pages e - 1.
Proof.
  intros Hf Hp Hn Hb Hne.
  assert (Hh : 0 <= n / 2 < n) by (split; [apply Z.div_pos|apply Z.div_lt]; lia).
  assert (Hm : u64 (pgoff + Z.quot n 2) = pgoff + n / 2).
  { rewrite Z.quot_div_nonneg by lia. unfold u64. apply Z.mod_small. lia. }
  unfold nova_get_prev_seq_count in *. rewrite Hm in *.
  assert (Tail : (match find (pgoff + n / 2) with
      | Some e => if is_entry_time_out now e then 0
          else if (Migration.pgoff e <=? pgoff + n / 2) &&
                  (u64 (pgoff + n) <=? u64 (Migration.pgoff e + Migration.num_pages e))
               then u32 (seq_count e + 1) else 0
      | None => 0 end) <> 0 ->
    exists e, (find pgoff = Some e \/ find (pgoff + n / 2) = Some e) /\
      is_entry_time_out now e = false /\
      (match find (pgoff + n / 2) with
      | Some e => if is_entry_time_out now e then 0
          else if (Migration.pgoff e <=? pgoff + n / 2) &&
                  (u64 (pgoff + n) <=? u64 (Migration.pgoff e + Migration.num_pages e))
               then u32 (seq_count e + 1) else 0
      | None => 0 end) = u32 (seq_count e + 1) /\
      Migration.pgoff e <= pgoff + n / 2 <= Migration.pgoff e + Migration.num_pages e - 1).
  { destruct (find (pgoff + n / 2)) as [e|] eqn:F; [|tauto].
    destruct (Hf _ _ F) as (H1 & H2 & H3).
    destruct (is_entry_time_out now e) eqn:T; [tauto|].
    unfold u64. rewrite !Z.mod_small by lia.
    destruct (Z.leb_spec (Migration.pgoff e) (pgoff + n / 2));
      destruct (Z.leb_spec (pgoff + n) (Migration.pgoff e + Migration.num_pages e));
      simpl; try tauto.
    intros _. exists e. repeat split; auto; lia. }
  destruct (find pgoff) as [e|] eqn:F; [|exact (Tail Hne)].
  destruct (Hf _ _ F) as (H1 & H2 & H3).
  destruct (is_entry_time_out now e) eqn:T; [exact (Tail Hne)|].
  unfold u64 in *. rewrite (Z.mod_small (_ + _ - 1)) in * by lia.
  destruct (Z.leb_spec (Migration.pgoff e) pgoff);
    destruct (Z.leb_spec (pgoff + n / 2) (Migration.pgoff e + Migration.num_pages e - 1));
    simpl in *; try exact (Tail Hne).
  exists e. repeat split; auto; lia.
Qed.


(** X4: [nova_unlink_inode_lru_list] removes the inode from the LRU lists
    of every tier [0 .. TIER_BDEV_HIGH] of its own cpu ([ino mod cpus]) and
    leaves every other list as it was. *)
Theorem unlink_inode_lru_list_spec (ncpus : Z) (l : lru_lists) (sih : nova_inode_info_header) :
  forall t c,
    nova_unlink_inode_lru_list ncpus l sih t c =
    if (c =? sih_ino sih mod ncpus) && (0 <=? t) && (t <=? TIER_BDEV_HIGH)
    then filter (fun x => negb (x =? sih_ino sih)) (l t c) else l t c.
Proof.
  intros t c. unfold nova_unlink_inode_lru_list, nova_remove_inode_lru_list.
  rewrite remove_fold, existsb_zseq.
  replace (t <? TIER_BDEV_HIGH + 1) with (t <=? TIER_BDEV_HIGH)
    by (apply eq_true_iff_eq; rewrite Z.ltb_lt, Z.leb_le; lia).
  rewrite andb_assoc. reflexivity.
Qed.

(** X5: in every mode, [nova_update_sih_tier] leaves the inode exactly once
    at the tail of the LRU list of [(tier, ino mod cpus)] and never touches
    the lists of another cpu; afterwards [ltier <= htier]; a forced or write
    update makes [ltier <= tier <= htier], a partial migration makes
    [tier <= ltier]. *)
Theorem update_sih_tier_appends_once (ncpus : Z) (l : lru_lists) (sih : nova_inode_info_header)
    (tier : Z) (force write : bool) :
  0 <= tier <= TIER_BDEV_HIGH ->
  let '(l', sih') := nova_update_sih_tier ncpus l sih tier force write in
  l' tier (sih_ino sih mod ncpus) =
    filter (fun x => negb (x =? sih_ino sih)) (l tier (sih_ino sih mod ncpus)) ++ [sih_ino sih] /\
  (forall t c, c <> sih_ino sih mod ncpus -> l' t c = l t c) /\
  sih_ino sih' = sih_ino sih /\
  ltier sih' <= htier sih' /\
  (force || write = true -> ltier sih' <= tier <= htier sih') /\
  (force || write = false -> tier <= ltier sih').
Proof.
  intros Ht. unfold nova_update_sih_tier.
  set (ino := sih_ino sih). set (cpu := ino mod ncpus).
  assert (R : forall t c k, 0 <= t <= k ->
    nova_remove_inode_lru_list ncpus l sih k t c =
    if c =? cpu then filter (fun x => negb (x =? ino)) (l t c) else l t c).
  { intros t c k Hk. unfold nova_remove_inode_lru_list. rewrite remove_fold, existsb_zseq.
    replace ((0 <=? t) && (t <? k + 1)) with true
      by (symmetry; apply andb_true_iff; split; [apply Z.leb_le|apply Z.ltb_lt]; lia).
    rewrite andb_true_r. reflexivity. }
  assert (O : forall k t c, c <> cpu -> nova_remove_inode_lru_list ncpus l sih k t c = l t c).
  { intros k t c Hc. unfold nova_remove_inode_lru_list. rewrite remove_fold.
    replace (c =? sih_ino sih mod ncpus) with false by (symmetry; apply Z.eqb_neq; exact Hc).
    reflexivity. }
  destruct force; [|destruct write]; simpl.
  - unfold list_add_tail_ino, set_list. rewrite !Z.eqb_refl. simpl.
    rewrite R by (unfold TIER_BDEV_HIGH in *; lia). rewrite Z.eqb_refl.
    split; [reflexivity|]. split; [|repeat split; lia].
    intros t c Hc. replace (c =? cpu) with false by (symmetry; apply Z.eqb_neq; exact Hc).
    rewrite andb_false_r. apply O. exact Hc.
  - unfold list_add_tail_ino, list_del_ino, set_list. rewrite !Z.eqb_refl. simpl.
    split; [reflexivity|]. split.
    + intros t c Hc. replace (c =? cpu) with false by (symmetry; apply Z.eqb_neq; exact Hc).
      rewrite !andb_false_r. reflexivity.
    + split; [reflexivity|].
      destruct (Z.gtb_spec (ltier sih) tier); destruct (Z.ltb_spec (htier sih) tier);
        repeat split; try lia; discriminate.
  - unfold list_add_tail_ino, set_list. rewrite !Z.eqb_refl. simpl.
    rewrite R by lia. rewrite Z.eqb_refl.
    split; [reflexivity|]. split.
    + intros t c Hc. replace (c =? cpu) with false by (symmetry; apply Z.eqb_neq; exact Hc).
      rewrite andb_false_r. apply O. exact Hc.
    + split; [reflexivity|].
      destruct (Z.ltb_spec (ltier sih) tier);
        [destruct (Z.ltb_spec (htier sih) tier)|destruct (Z.ltb_spec (htier sih) (ltier sih))];
        repeat split; try lia; discriminate.
Qed.

Lemma wcount_counts_bytes_until_judged_witness :
  run_writes 0 [(100, 90, 2 ^ 19); (101, 95, 2 ^ 19)] = 0 + (2 ^ 19 + (2 ^ 19 + 0)) /\
  fst (nova_sih_judge_sync (run_writes 0 [(100, 90, 2 ^ 19); (101, 95, 2 ^ 19)])) =
    (2 ^ 20 <=? 0 mod 2 ^ 63 + (2 ^ 19 + (2 ^ 19 + 0))).
Proof.
  apply (wcount_counts_bytes_until_judged 0 [(100, 90, 2 ^ 19); (101, 95, 2 ^ 19)]).
  - lia.
  - repeat constructor; lia.
  - vm_compute. reflexivity.
Defined.

Lemma prev_seq_count_covers_midpoint_witness :
  nova_get_prev_seq_count seq_find 110 2 4 = 4 /\
  exists e, (seq_find 2 = Some e \/ seq_find (2 + 4 / 2) = Some e) /\
    is_entry_time_out 110 e = false /\
    nova_get_prev_seq_count seq_find 110 2 4 = u32 (seq_count e + 1) /\
    Migration.pgoff e <= 2 + 4 / 2 <= Migration.pgoff e + Migration.num_pages e - 1.
Proof.
  split; [vm_compute; reflexivity|].
  apply (prev_seq_count_covers_midpoint seq_find 110 2 4).
  - intros i e H. unfold seq_find in H.
    destruct ((0 <=? i) && (i <? 8)); inversion H; subst; cbn; lia.
  - lia.
  - lia.
  - lia.
  - vm_compute. discriminate.
Defined.

Lemma update_sih_tier_appends_once_witness :
  0 <= TIER_BDEV_LOW <= TIER_BDEV_HIGH /\
  let '(l', sih') := nova_update_sih_tier 2 (fun _ _ => [3; 5]) (mk_sih 5 0 0) TIER_BDEV_LOW false true in
  l' TIER_BDEV_LOW (5 mod 2) = filter (fun x => negb (x =? 5)) [3; 5] ++ [5] /\
  (forall t c, c <> 5 mod 2 -> l' t c = [3; 5]) /\
  sih_ino sih' = 5 /\ ltier sih' <= htier sih' /\
  (false || true = true -> ltier sih' <= TIER_BDEV_LOW <= htier sih') /\
  (false || true = false -> TIER_BDEV_LOW <= ltier sih').
Proof.
  split; [unfold TIER_BDEV_LOW, TIER_BDEV_HIGH; lia|].
  apply (update_sih_tier_appends_once 2 (fun _ _ => [3; 5]) (mk_sih 5 0 0) TIER_BDEV_LOW false true).
  unfold TIER_BDEV_LOW, TIER_BDEV_HIGH; lia.
Defined.

End ProfProps.

Module SplitProps.
Import Bdev Migration Prof Split ExtraScenarios.

Lemma cross_div e osb :
  0 <= osb -> 0 <= pgoff e -> 1 <= num_pages e ->
  (pgoff e / 2 ^ osb =? (pgoff e + num_pages e - 1) / 2 ^ osb) =
  (pgoff e mod 2 ^ osb + num_pages e <=? 2 ^ osb).
Proof.
  intros Ho Hp Hn. set (B := 2 ^ osb).
  assert (HB : 0 < B) by (apply Z.pow_pos_nonneg; lia).
  pose proof (Z.div_mod (pgoff e) B ltac:(lia)) as D.
  pose proof (Z.mod_pos_bound (pgoff e) B HB) as M.
  set (q := pgoff e / B) in *. set (r := pgoff e mod B) in *.
  replace (pgoff e + num_pages e - 1) with ((r + num_pages e - 1) + q * B) by lia.
  rewrite Z.div_add by lia.
  apply eq_true_iff_eq. rewrite Z.eqb_eq, Z.leb_le. split.
  - intros E. assert ((r + num_pages e - 1) / B = 0) by lia.
    apply Z.div_small_iff in H; lia.
  - intros L. rewrite Z.div_small by lia. lia.
Qed.

(** X6: for an entry whose pages [[pgoff, pgoff + num_pages)] stay below
    [2^64], [is_entry_cross_boundary] holds exactly when the entry does not
    fit in the rest of the [2^opt_size_bit]-page window where it starts. *)
Theorem cross_boundary_iff (opt_size_bit : Z -> Z) (e : nova_file_write_entry) (tier : Z) :
  0 <= opt_size_bit tier -> 0 <= pgoff e -> 1 <= num_pages e ->
  pgoff e + num_pages e <= 2 ^ 64 ->
  is_entry_cross_boundary opt_size_bit e tier =
  (2 ^ opt_size_bit tier <? pgoff e mod 2 ^ opt_size_bit tier + num_pages e).
Proof.
  intros Ho Hp Hn Hb. unfold is_entry_cross_boundary, u64.
  rewrite Z.mod_small by lia. rewrite !Z.shiftr_div_pow2 by lia.
  rewrite cross_div by lia. rewrite Z.leb_antisym. apply negb_involutive.
Qed.

Lemma u64_id x : 0 <= x < 2 ^ 64 -> u64 x = x.
Proof. intros; unfold u64; apply Z.mod_small; lia. Qed.

Lemma u32_id x : 0 <= x < 2 ^ 32 -> u32 x = x.
Proof. intros; unfold u32; apply Z.mod_small; lia. Qed.

Lemma shl_zero k : u64 (Z.shiftl (u64 0) k) = 0.
Proof. unfold u64. rewrite Zmod_0_l, Z.shiftl_0_l. apply Zmod_0_l. Qed.

(** X7: on an entry that crosses a window boundary, [nova_split_entry]
    keeps the first [num_prev] pages in the entry, with [0 < num_prev <
    num_pages], and cuts at the start of the last window the entry reaches;
    the appended entry (if the append succeeds) covers the remaining pages,
    from the same block offset on; [i_blocks] grows by 0; the result is the
    result of [nova_reassign_file_tree], even when the append failed, and
    [trans_id] grows only when that result is 0. *)
Theorem split_entry_at_last_boundary (opt_size_bit : Z -> Z) (append_ok : bool)
    (reassign_ret blk_shift : Z) (e : nova_file_write_entry) (tier : Z) :
  0 <= opt_size_bit tier < 64 -> 0 <= pgoff e -> 1 <= num_pages e < 2 ^ 32 ->
  pgoff e + num_pages e <= 2 ^ 64 -> 0 <= block e < 2 ^ 64 ->
  is_entry_cross_boundary opt_size_bit e tier = true ->
  match nova_split_entry opt_size_bit append_ok reassign_ret blk_shift e tier with
  | (ret, e', appended, i_blocks_inc, trans_inc) =>
      let B := 2 ^ opt_size_bit tier in
      let np' := num_pages e' in
      e' = set_num_pages e np' /\
      0 < np' < num_pages e /\
      (pgoff e + np') mod B = 0 /\
      (pgoff e + np') / B = (pgoff e + num_pages e - 1) / B /\
      appended = (if append_ok
                  then [(pgoff e + np', num_pages e - np', Z.shiftr (block e) PAGE_SHIFT + np')]
                  else []) /\
      i_blocks_inc = 0 /\ ret = reassign_ret /\
      trans_inc = (if reassign_ret =? 0 then 1 else 0)
  end.
Proof.
  intros Ho Hp Hn Hb Hbl Hc.
  unfold is_entry_cross_boundary in Hc. unfold nova_split_entry.
  set (osb := opt_size_bit tier) in *.
  set (B := 2 ^ osb).
  assert (HB : 0 < B) by (apply Z.pow_pos_nonneg; lia).
  set (X := pgoff e + num_pages e - 1) in *.
  rewrite (u64_id X) in * by lia.
  rewrite !Z.shiftr_div_pow2 in Hc by lia. apply negb_true_iff, Z.eqb_neq in Hc. fold B in Hc.
  rewrite Z.shiftl_mul_pow2, Z.shiftr_div_pow2 by lia. fold B.
  assert (L1 : pgoff e / B <= X / B) by (apply Z.div_le_mono; lia).
  pose proof (Z.div_mod (pgoff e) B ltac:(lia)) as D1.
  pose proof (Z.mod_pos_bound (pgoff e) B HB) as M1.
  pose proof (Z.div_mod X B ltac:(lia)) as D2.
  pose proof (Z.mod_pos_bound X B HB) as M2.
  assert (R1 : pgoff e < X / B * B).
  { assert (pgoff e / B + 1 <= X / B) by lia.
    assert ((pgoff e / B + 1) * B <= X / B * B) by (apply Z.mul_le_mono_nonneg_r; lia).
    lia. }
  assert (R2 : X / B * B <= X) by lia.
  set (np := X / B * B - pgoff e).
  rewrite (u64_id np) by lia.
  assert (Hsh : 0 <= Z.shiftr (block e) PAGE_SHIFT < 2 ^ 52).
  { rewrite Z.shiftr_div_pow2 by (unfold PAGE_SHIFT; lia). unfold PAGE_SHIFT.
    split; [apply Z.div_pos; lia | apply Z.div_lt_upper_bound; lia]. }
  assert (Hnp : np < num_pages e) by (unfold np, X in *; lia).
  cbn [num_pages set_num_pages]. rewrite (u32_id np) by lia.
  rewrite Z.sub_diag, shl_zero.
  rewrite (u64_id (pgoff e + np)) by (unfold np, X in *; lia).
  rewrite (u64_id (num_pages e - np)) by lia.
  rewrite (u64_id (Z.shiftr (block e) PAGE_SHIFT + np)) by lia.
  assert (F1 : (pgoff e + np) mod B = 0).
  { replace (pgoff e + np) with (X / B * B) by (unfold np; lia). apply Z.mod_mul; lia. }
  assert (F2 : (pgoff e + np) / B = X / B).
  { replace (pgoff e + np) with (X / B * B) by (unfold np; lia). apply Z.div_mul; lia. }
  destruct (reassign_ret =? 0) eqn:Er; cbn [negb num_pages set_num_pages].
  - repeat split; try lia; reflexivity.
  - repeat split; try lia; reflexivity.
Qed.

Lemma cross_boundary_iff_witness :
  is_entry_cross_boundary osb9 entry_across TIER_BDEV_LOW = true /\
  is_entry_cross_boundary osb9 entry_across TIER_BDEV_LOW =
  (2 ^ osb9 TIER_BDEV_LOW <? pgoff entry_across mod 2 ^ osb9 TIER_BDEV_LOW + num_pages entry_across).
Proof.
  split; [vm_compute; reflexivity|].
  apply (cross_boundary_iff osb9 entry_across TIER_BDEV_LOW);
    unfold osb9, entry_across; cbn; lia.
Defined.

Lemma split_entry_at_last_boundary_witness :
  match nova_split_entry osb9 true 0 0 entry_across TIER_BDEV_LOW with
  | (ret, e', appended, i_blocks_inc, trans_inc) =>
      let B := 2 ^ osb9 TIER_BDEV_LOW in
      let np' := num_pages e' in
      e' = set_num_pages entry_across np' /\
      0 < np' < num_pages entry_across /\
      (pgoff entry_across + np') mod B = 0 /\
      (pgoff entry_across + np') / B = (pgoff entry_across + num_pages entry_across - 1) / B /\
      appended = (if true
                  then [(pgoff entry_across + np', num_pages entry_across - np',
                         Z.shiftr (block entry_across) PAGE_SHIFT + np')]
                  else []) /\
      i_blocks_inc = 0 /\ ret = 0 /\
      trans_inc = (if 0 =? 0 then 1 else 0)
  end.
Proof.
  apply (split_entry_at_last_boundary osb9 true 0 0 entry_across TIER_BDEV_LOW);
    unfold osb9, entry_across, PAGE_SHIFT; cbn; try lia; reflexivity.
Defined.

End SplitProps.

Module GroupProps.
Import Bdev Migration Scenarios.

Section Group.
Variable entry_csum : nova_file_write_entry -> Z.
Variable pmem_alloc : Z -> Z -> Z -> Z * Z.
Variable locked : Z -> Z -> bool.
Variable b2v raw : Z -> Z.
Variable wr rd : Z -> Z -> Z -> Z.
Variable flush : Z.
Variable append : Z -> option Z.
Variable blk cpu : Z.

(** X8: with a nonzero [blocknr_hint] (the group mode used by
    [migrate_group_entry_blocks]), [migrate_entry_blocks] allocates nothing,
    appends no log entry and leaves the log tail, [i_blocks] and [trans_id]
    as they were; the entry keeps its block, page offset, page count and
    tier; and the result is either at most 0 or the result of
    [flush_bal_entry]. *)
Theorem group_mode_keeps_allocator_and_log (st : mig_state) (from to hint : Z) :
  hint <> 0 ->
  let '(ret, st') := migrate_entry_blocks entry_csum pmem_alloc locked b2v raw wr rd flush
                       append blk cpu st from to hint in
  ms_sbi st' = ms_sbi st /\ ms_log st' = ms_log st /\ ms_tail st' = ms_tail st /\
  ms_i_blocks st' = ms_i_blocks st /\ ms_trans_id st' = ms_trans_id st /\
  block (ms_entry st') = block (ms_entry st) /\ pgoff (ms_entry st') = pgoff (ms_entry st) /\
  num_pages (ms_entry st') = num_pages (ms_entry st) /\
  entry_tier (ms_entry st') = entry_tier (ms_entry st) /\
  (ret <= 0 \/ ret = flush).
Proof.
  intros Hh. unfold migrate_entry_blocks.
  destruct st as [sbi [ty ti up np bl pg mt ep sc cs] lg tl ib tr]; cbn.
  destruct (negb (ti =? from)); [repeat split; lia|].
  destruct (is_entry_busy _ _ _); [repeat split; lia|].
  rewrite (proj2 (Z.eqb_neq hint 0) Hh); cbn.
  destruct (migrate_blocks _ _ _ _ _ _ _ _ <? 0) eqn:E1; cbn; [repeat split; lia|].
  destruct (flush <? 0) eqn:E2; cbn; repeat split; lia.
Qed.
End Group.
(** Group mode on the four-page PMEM entry with every collaborator
    succeeding and the hint block 5. *)
Lemma group_mode_keeps_allocator_and_log_witness :
  (5 <> 0) /\
  let '(ret, st') := migrate_ok false (file_state sbi_two_tiers 0) TIER_PMEM TIER_BDEV_LOW 5 in
  ms_sbi st' = sbi_two_tiers /\ ms_log st' = [] /\ ms_tail st' = 1000 /\
  ms_i_blocks st' = 0 /\ ms_trans_id st' = 0 /\
  block (ms_entry st') = block (entry_pmem 0) /\ pgoff (ms_entry st') = pgoff (entry_pmem 0) /\
  num_pages (ms_entry st') = num_pages (entry_pmem 0) /\
  entry_tier (ms_entry st') = entry_tier (entry_pmem 0) /\
  (ret <= 0 \/ ret = 0).
Proof.
  split; [discriminate|]. unfold migrate_ok.
  apply (group_mode_keeps_allocator_and_log _ _ _ _ _ _ _ _ _ _ _
           (file_state sbi_two_tiers 0) TIER_PMEM TIER_BDEV_LOW 5).
  discriminate.
Defined.

End GroupProps.

Module DownwardProps.
Import Bdev Victim.

(** X9: [do_migrate_a_file_downward] always returns 0 and calls
    [migrate_a_file] at most twice. The first call is made only when PMEM
    usage is high and a PMEM inode was popped, and then always: it moves that
    inode (never NULL) from PMEM to [TIER_BDEV_LOW]. At most one more call
    follows, from [TIER_BDEV_LOW] to [TIER_BDEV_HIGH]. When PMEM usage is
    high but no PMEM inode is found, it calls nothing at all. *)
Theorem downward_call_shape (perc cpu : Z) (eff : vstate -> option Z -> Z -> Z -> vstate)
    (vs : vstate) :
  let '(ret, calls) := do_migrate_a_file_downward perc cpu eff vs in
  ret = 0 /\
  (is_pmem_usage_high perc vs = true -> pop_an_inode_to_migrate vs TIER_PMEM cpu = None ->
   calls = []) /\
  exists pm bd, calls = pm ++ bd /\
    (pm = [] /\ (is_pmem_usage_high perc vs = false \/
                 pop_an_inode_to_migrate vs TIER_PMEM cpu = None) \/
     exists x, is_pmem_usage_high perc vs = true /\
               pop_an_inode_to_migrate vs TIER_PMEM cpu = Some x /\
               pm = [(Some x, TIER_PMEM, TIER_BDEV_LOW)]) /\
    (bd = [] \/ exists o, bd = [(o, TIER_BDEV_LOW, TIER_BDEV_HIGH)]).
Proof.
  unfold do_migrate_a_file_downward.
  replace (zrange TIER_BDEV_LOW (TIER_BDEV_HIGH - 1)) with [1] by reflexivity.
  destruct (is_pmem_usage_high perc vs) eqn:Hp.
  - destruct (pop_an_inode_to_migrate vs TIER_PMEM cpu) as [x|] eqn:Ep.
    + simpl fold_left. destruct (is_bdev_usage_high perc (vs_sbi (eff vs (Some x) TIER_PMEM TIER_BDEV_LOW)) 1); cbn iota beta.
      * split; [reflexivity|]. split; [discriminate|].
        exists [(Some x, TIER_PMEM, TIER_BDEV_LOW)],
          [(pop_an_inode_to_migrate (eff vs (Some x) TIER_PMEM TIER_BDEV_LOW) 1 cpu, 1, 2)].
        split; [reflexivity|]. split; right; eauto.
      * split; [reflexivity|]. split; [discriminate|].
        exists [(Some x, TIER_PMEM, TIER_BDEV_LOW)], []. split; [reflexivity|].
        split; [right; eauto|left; reflexivity].
    + cbn. split; [reflexivity|]. split; [reflexivity|].
      exists [], []. split; [reflexivity|]. split; left; auto.
  - simpl fold_left. destruct (is_bdev_usage_high perc (vs_sbi vs) 1); cbn iota beta.
    + split; [reflexivity|]. split; [discriminate|].
      exists [], [(pop_an_inode_to_migrate vs 1 cpu, 1, 2)].
      split; [reflexivity|]. split; [left; auto|right; eexists; reflexivity].
    + split; [reflexivity|]. split; [discriminate|].
      exists [], []. split; [reflexivity|]. split; left; auto.
Qed.
End DownwardProps.

Module MountProps.
Import Bdev ExtraScenarios.

Lemma nth_map_zseq {A} (g : Z -> A) (n : Z) (k : nat) (d : A) :
  (k < Z.to_nat n)%nat -> nth k (map g (zseq n)) d = g (Z.of_nat k).
Proof.
  intros Hk. unfold zseq. rewrite map_map.
  rewrite nth_indep with (d' := g (Z.of_nat 0)) by (rewrite length_map, length_seq; lia).
  rewrite (map_nth (fun x => g (Z.of_nat x)) _ 0%nat), seq_nth by lia. reflexivity.
Qed.

Lemma length_map_zseq {A} (g : Z -> A) (n : Z) : length (map g (zseq n)) = Z.to_nat n.
Proof. unfold zseq. rewrite length_map, length_map, length_seq. reflexivity. Qed.

(** The shard at flat index [k] of a freshly mounted sbi. *)
Lemma init_blockmap_flat (ncpus pmem : Z) (caps : list Z) (k : Z) :
  0 < ncpus -> 0 <= k < 2 * ncpus ->
  let tier := if k <? ncpus then TIER_BDEV_LOW else TIER_BDEV_HIGH in
  let cpu := if k <? ncpus then k else k - ncpus in
  let total := nth (Z.to_nat (tier - TIER_BDEV_LOW)) caps 0 / ncpus in
  let start := pmem + (if k <? ncpus then 0 else nth 0 caps 0) + cpu * total in
  nova_get_bdev_free_list_flat (nova_init_bdev_blockmap ncpus pmem caps) k =
  mk_bfl tier cpu start (start + total - 1) total total 1 (Some (Z.to_nat k)) (Some (Z.to_nat k))
    [mk_node (Z.to_nat k) start (start + total - 1) true].
Proof.
  intros Hn Hk. unfold nova_get_bdev_free_list_flat, nova_init_bdev_blockmap.
  cbn [bdev_free_lists flat_map]. rewrite app_nil_r.
  destruct (k <? ncpus) eqn:Ek.
  - apply Z.ltb_lt in Ek.
    rewrite app_nth1 by (rewrite length_map_zseq; lia).
    rewrite nth_map_zseq by lia. rewrite Z2Nat.id by lia.
    unfold nova_init_bdev_free_list.
    replace ((TIER_BDEV_LOW - TIER_BDEV_LOW) * ncpus + k) with k by (unfold TIER_BDEV_LOW, TIER_BDEV_LOW; lia).
    change (zseq TIER_BDEV_LOW) with [0]. cbn.
    f_equal; try lia; repeat f_equal; lia.
  - apply Z.ltb_ge in Ek.
    rewrite app_nth2 by (rewrite length_map_zseq; lia).
    rewrite length_map_zseq.
    rewrite nth_map_zseq by lia.
    replace (Z.of_nat (Z.to_nat k - Z.to_nat ncpus)) with (k - ncpus) by lia.
    unfold nova_init_bdev_free_list.
    replace ((TIER_BDEV_HIGH - TIER_BDEV_LOW) * ncpus + (k - ncpus)) with k by (unfold TIER_BDEV_LOW, TIER_BDEV_HIGH; lia).
    change (zseq TIER_BDEV_HIGH) with [0; 1]. cbn.
    f_equal; try lia; repeat f_equal; lia.
Qed.

Lemma init_shard_layout (ncpus pmem : Z) (caps : list Z) (tier cpu : Z) :
  0 < ncpus -> tier = TIER_BDEV_LOW \/ tier = TIER_BDEV_HIGH -> 0 <= cpu < ncpus ->
  let total := nth (Z.to_nat (tier - TIER_BDEV_LOW)) caps 0 / ncpus in
  let start := pmem + (if tier =? TIER_BDEV_HIGH then nth 0 caps 0 else 0) + cpu * total in
  let id := Z.to_nat ((tier - TIER_BDEV_LOW) * ncpus + cpu) in
  nova_get_bdev_free_list (nova_init_bdev_blockmap ncpus pmem caps) tier cpu =
  mk_bfl tier cpu start (start + total - 1) total total 1 (Some id) (Some id)
    [mk_node id start (start + total - 1) true].
Proof.
  intros Hn Ht Hc. unfold nova_get_bdev_free_list, bfl_index.
  change (cpus (nova_init_bdev_blockmap ncpus pmem caps)) with ncpus.
  rewrite init_blockmap_flat by (destruct Ht; subst; unfold TIER_BDEV_LOW, TIER_BDEV_HIGH; lia).
  destruct Ht; subst; unfold TIER_BDEV_LOW, TIER_BDEV_HIGH.
  - replace ((1 - 1) * ncpus + cpu <? ncpus) with true by (symmetry; apply Z.ltb_lt; lia).
    cbn -[Z.mul Z.add Z.sub]. f_equal; lia.
  - replace ((2 - 1) * ncpus + cpu <? ncpus) with false by (symmetry; apply Z.ltb_ge; lia).
    cbn -[Z.mul Z.add Z.sub]. f_equal; try lia; repeat f_equal; lia.
Qed.

(** X11: after mounting, the window of each block-device tier, from
    [nova_get_bdev_block_start] to [nova_get_bdev_block_end], starts right
    after PMEM (and, for [TIER_BDEV_HIGH], after the whole first device) and
    holds [cpus * (capacity / cpus)] blocks: the last [capacity mod cpus]
    blocks of a device belong to no shard. *)
Theorem mount_tier_window (ncpus pmem : Z) (caps : list Z) (tier : Z) :
  0 < ncpus -> tier = TIER_BDEV_LOW \/ tier = TIER_BDEV_HIGH ->
  let sbi := nova_init_bdev_blockmap ncpus pmem caps in
  let total := nth (Z.to_nat (tier - TIER_BDEV_LOW)) caps 0 / ncpus in
  let start := pmem + (if tier =? TIER_BDEV_HIGH then nth 0 caps 0 else 0) in
  nova_get_bdev_block_start sbi tier = start /\
  nova_get_bdev_block_end sbi tier = start + ncpus * total - 1.
Proof.
  intros Hn Ht. unfold nova_get_bdev_block_start, nova_get_bdev_block_end.
  change (cpus (nova_init_bdev_blockmap ncpus pmem caps)) with ncpus.
  destruct Ht; subst; unfold TIER_BDEV_LOW, TIER_BDEV_HIGH.
  - rewrite !init_blockmap_flat by lia.
    replace ((1 - 1) * ncpus <? ncpus) with true by (symmetry; apply Z.ltb_lt; lia).
    replace (1 * ncpus - 1 <? ncpus) with true by (symmetry; apply Z.ltb_lt; lia).
    cbn -[Z.mul Z.add Z.sub Z.div].
    change (Z.to_nat (TIER_BDEV_LOW - TIER_BDEV_LOW)) with 0%nat.
    change (Z.to_nat (1 - 1)) with 0%nat. split; nia.
  - rewrite !init_blockmap_flat by lia.
    replace ((2 - 1) * ncpus <? ncpus) with false by (symmetry; apply Z.ltb_ge; lia).
    replace (2 * ncpus - 1 <? ncpus) with false by (symmetry; apply Z.ltb_ge; lia).
    cbn -[Z.mul Z.add Z.sub Z.div].
    change (Z.to_nat (TIER_BDEV_HIGH - TIER_BDEV_LOW)) with 1%nat.
    change (Z.to_nat (2 - 1)) with 1%nat. split; nia.
Qed.

Fixpoint first_index (P : Z -> bool) (l : list Z) : Z :=
  match l with
  | [] => -1
  | i :: r => if P i then i else first_index P r
  end.

Lemma get_bfl_index_first (sbi : nova_sb_info) (b : Z) :
  get_bfl_index sbi b =
  first_index (fun i => (block_start (nova_get_bdev_free_list_flat sbi i) <=? b) &&
                        (b <=? block_end (nova_get_bdev_free_list_flat sbi i)))
    (zseq (TIER_BDEV_HIGH * cpus sbi)).
Proof.
  unfold get_bfl_index. induction (zseq (TIER_BDEV_HIGH * cpus sbi)) as [|i r IH];
    cbn; [reflexivity|]. rewrite IH. reflexivity.
Qed.

Lemma first_index_seq (P : Z -> bool) (len s k : nat) :
  (s <= k < s + len)%nat -> P (Z.of_nat k) = true ->
  (forall i, (s <= i < k)%nat -> P (Z.of_nat i) = false) ->
  first_index P (map Z.of_nat (seq s len)) = Z.of_nat k.
Proof.
  revert s. induction len as [|len IH]; intros s Hk Hp Hb; [lia|].
  cbn. destruct (Nat.eq_dec s k) as [->|Hne].
  - rewrite Hp. reflexivity.
  - rewrite Hb by lia. apply IH; [lia|exact Hp|intros; apply Hb; lia].
Qed.

Lemma first_index_none (P : Z -> bool) (l : list Z) :
  (forall i, In i l -> P i = false) -> first_index P l = -1.
Proof.
  induction l as [|i r IH]; intros H; cbn; [reflexivity|].
  rewrite H by (left; reflexivity). apply IH. intros; apply H; right; assumption.
Qed.

Lemma in_zseq (i n : Z) : In i (zseq n) -> 0 <= i < n.
Proof.
  unfold zseq. rewrite in_map_iff. intros [k [<- Hk]].
  apply in_seq in Hk. lia.
Qed.

(** X12: on a freshly mounted sbi, [get_bfl_index] maps a block of shard
    [cpu] of [TIER_BDEV_LOW] to index [cpu], a block of shard [cpu] of
    [TIER_BDEV_HIGH] to [cpus + cpu], and returns [-1] for a PMEM block, for
    a block of the unused remainder of the first device and for a block
    past the unused remainder of the second. *)
Theorem mount_bfl_index (ncpus pmem : Z) (caps : list Z) (b : Z) :
  0 < ncpus -> 0 <= nth 0 caps 0 -> 0 <= nth 1 caps 0 ->
  let sbi := nova_init_bdev_blockmap ncpus pmem caps in
  let cap0 := nth 0 caps 0 in
  let T1 := nth 0 caps 0 / ncpus in
  let T2 := nth 1 caps 0 / ncpus in
  (forall cpu, 0 <= cpu < ncpus ->
     pmem + cpu * T1 <= b <= pmem + cpu * T1 + T1 - 1 ->
     get_bfl_index sbi b = cpu) /\
  (forall cpu, 0 <= cpu < ncpus ->
     pmem + cap0 + cpu * T2 <= b <= pmem + cap0 + cpu * T2 + T2 - 1 ->
     get_bfl_index sbi b = ncpus + cpu) /\
  (b < pmem \/ pmem + ncpus * T1 <= b < pmem + cap0 \/ pmem + cap0 + ncpus * T2 <= b ->
     get_bfl_index sbi b = -1).
Proof.
  intros Hn Hc0 Hc1 sbi cap0 T1 T2.
  assert (HT1 : 0 <= T1) by (apply Z.div_pos; lia).
  assert (HT2 : 0 <= T2) by (apply Z.div_pos; lia).
  assert (HnT1 : ncpus * T1 <= cap0) by (apply Z.mul_div_le; lia).
  assert (Hflat : forall k, 0 <= k < 2 * ncpus ->
    block_start (nova_get_bdev_free_list_flat sbi k) =
      (if k <? ncpus then pmem + k * T1 else pmem + cap0 + (k - ncpus) * T2) /\
    block_end (nova_get_bdev_free_list_flat sbi k) =
      (if k <? ncpus then pmem + k * T1 + T1 - 1 else pmem + cap0 + (k - ncpus) * T2 + T2 - 1)).
  { intros k Hk. unfold sbi. rewrite init_blockmap_flat by lia.
    destruct (k <? ncpus); cbn -[Z.mul Z.add Z.sub Z.div].
    - change (Z.to_nat (TIER_BDEV_LOW - TIER_BDEV_LOW)) with 0%nat. fold T1. split; lia.
    - change (Z.to_nat (TIER_BDEV_HIGH - TIER_BDEV_LOW)) with 1%nat. fold T2. fold cap0.
      split; lia. }
  rewrite get_bfl_index_first.
  change (cpus sbi) with ncpus. unfold zseq. change TIER_BDEV_HIGH with 2.
  split; [|split].
  - intros cpu Hcpu Hb.
    transitivity (Z.of_nat (Z.to_nat cpu)); [|lia].
    apply first_index_seq; [lia| |].
    + rewrite Z2Nat.id by lia. destruct (Hflat cpu ltac:(lia)) as [-> ->].
      replace (cpu <? ncpus) with true by (symmetry; apply Z.ltb_lt; lia).
      apply andb_true_iff; split; apply Z.leb_le; lia.
    + intros i Hi. destruct (Hflat (Z.of_nat i) ltac:(lia)) as [-> ->].
      replace (Z.of_nat i <? ncpus) with true by (symmetry; apply Z.ltb_lt; lia).
      apply andb_false_iff; right; apply Z.leb_gt.
      assert ((Z.of_nat i + 1) * T1 <= cpu * T1) by (apply Z.mul_le_mono_nonneg_r; lia).
      lia.
  - intros cpu Hcpu Hb.
    transitivity (Z.of_nat (Z.to_nat (ncpus + cpu))); [|lia].
    apply first_index_seq; [lia| |].
    + rewrite Z2Nat.id by lia. destruct (Hflat (ncpus + cpu) ltac:(lia)) as [-> ->].
      replace (ncpus + cpu <? ncpus) with false by (symmetry; apply Z.ltb_ge; lia).
      apply andb_true_iff; split; apply Z.leb_le; replace (ncpus + cpu - ncpus) with cpu by lia; lia.
    + intros i Hi. destruct (Hflat (Z.of_nat i) ltac:(lia)) as [-> ->].
      apply andb_false_iff; right; apply Z.leb_gt.
      destruct (Z.of_nat i <? ncpus) eqn:Ei.
      * apply Z.ltb_lt in Ei.
        assert ((Z.of_nat i + 1) * T1 <= ncpus * T1) by (apply Z.mul_le_mono_nonneg_r; lia).
        assert (0 <= cpu * T2) by (apply Z.mul_nonneg_nonneg; lia). lia.
      * apply Z.ltb_ge in Ei.
        assert ((Z.of_nat i - ncpus + 1) * T2 <= cpu * T2) by (apply Z.mul_le_mono_nonneg_r; lia).
        lia.
  - intros Hb. apply first_index_none. intros i Hi.
    assert (Hr : 0 <= i < 2 * ncpus).
    { apply (in_zseq i (TIER_BDEV_HIGH * ncpus)). exact Hi. }
    destruct (Hflat i Hr) as [-> ->].
    destruct (i <? ncpus) eqn:Ei.
    + apply Z.ltb_lt in Ei.
      assert (0 <= i * T1) by (apply Z.mul_nonneg_nonneg; lia).
      assert ((i + 1) * T1 <= ncpus * T1) by (apply Z.mul_le_mono_nonneg_r; lia).
      apply andb_false_iff. destruct Hb as [Hb|[Hb|Hb]];
        [left; apply Z.leb_gt; lia|right; apply Z.leb_gt; lia|right; apply Z.leb_gt; lia].
    + apply Z.ltb_ge in Ei.
      assert (0 <= (i - ncpus) * T2) by (apply Z.mul_nonneg_nonneg; lia).
      assert ((i - ncpus + 1) * T2 <= ncpus * T2) by (apply Z.mul_le_mono_nonneg_r; lia).
      apply andb_false_iff. destruct Hb as [Hb|[Hb|Hb]];
        [left; apply Z.leb_gt; lia|left; apply Z.leb_gt; lia|right; apply Z.leb_gt; lia].
Qed.

Lemma fold_add_const (g : Z -> Z -> Z) (c : Z) (l : list Z) (a : Z) :
  (forall acc i, In i l -> g acc i = acc + c) ->
  fold_left g l a = a + c * Z.of_nat (length l).
Proof.
  revert a. induction l as [|i r IH]; intros a H; cbn; [lia|].
  rewrite H by (left; reflexivity). rewrite IH by (intros; apply H; right; assumption). lia.
Qed.

(** X13: right after mounting, [nova_bdev_used] of a block-device tier is
    0, [nova_bdev_total] is [cpus * (capacity / cpus)], and
    [is_bdev_usage_high] is false for any nonnegative threshold. *)
Theorem mount_usage_zero (perc ncpus pmem : Z) (caps : list Z) (tier : Z) :
  0 < ncpus -> tier = TIER_BDEV_LOW \/ tier = TIER_BDEV_HIGH -> 0 <= perc ->
  0 <= nth (Z.to_nat (tier - TIER_BDEV_LOW)) caps 0 ->
  let sbi := nova_init_bdev_blockmap ncpus pmem caps in
  Victim.nova_bdev_used sbi tier = 0 /\
  Victim.nova_bdev_total sbi tier = ncpus * (nth (Z.to_nat (tier - TIER_BDEV_LOW)) caps 0 / ncpus) /\
  Victim.is_bdev_usage_high perc sbi tier = false.
Proof.
  intros Hn Ht Hp Hc sbi.
  set (T := nth (Z.to_nat (tier - TIER_BDEV_LOW)) caps 0 / ncpus) in *.
  assert (HT : 0 <= T) by (apply Z.div_pos; lia).
  assert (Hb : forall i, In i (zseq ncpus) ->
     num_total_blocks (nova_get_bdev_free_list sbi tier i) = T /\
     num_free_blocks (nova_get_bdev_free_list sbi tier i) = T).
  { intros i Hi. apply in_zseq in Hi. unfold sbi.
    rewrite init_shard_layout by assumption. cbn. split; reflexivity. }
  assert (Hu : Victim.nova_bdev_used sbi tier = 0).
  { unfold Victim.nova_bdev_used. change (cpus sbi) with ncpus.
    rewrite (fold_add_const _ 0) by (intros acc i Hi; destruct (Hb i Hi) as [-> ->]; lia). lia. }
  assert (Ht' : Victim.nova_bdev_total sbi tier = ncpus * T).
  { unfold Victim.nova_bdev_total. change (cpus sbi) with ncpus.
    rewrite (fold_add_const _ T) by (intros acc i Hi; destruct (Hb i Hi) as [-> _]; lia).
    unfold zseq. rewrite length_map, length_seq, Z2Nat.id by lia. lia. }
  split; [exact Hu|]. split; [exact Ht'|].
  unfold Victim.is_bdev_usage_high. rewrite Hu, Ht'. apply Z.ltb_ge. nia.
Qed.

(** X10: [nova_init_bdev_blockmap] with [recovery = 0] gives shard
    [(tier, cpu)] [capacity / cpus] blocks starting at [cpu * (capacity /
    cpus)] past the start of its tier (PMEM first, then the first device),
    all free, in one range node that is both the first and the last node. *)
Theorem mount_shard_layout (ncpus pmem : Z) (caps : list Z) (tier cpu : Z) :
  0 < ncpus -> tier = TIER_BDEV_LOW \/ tier = TIER_BDEV_HIGH -> 0 <= cpu < ncpus ->
  let total := nth (Z.to_nat (tier - TIER_BDEV_LOW)) caps 0 / ncpus in
  let start := pmem + (if tier =? TIER_BDEV_HIGH then nth 0 caps 0 else 0) + cpu * total in
  let id := Z.to_nat ((tier - TIER_BDEV_LOW) * ncpus + cpu) in
  nova_get_bdev_free_list (nova_init_bdev_blockmap ncpus pmem caps) tier cpu =
  mk_bfl tier cpu start (start + total - 1) total total 1 (Some id) (Some id)
    [mk_node id start (start + total - 1) true].
Proof. exact (init_shard_layout ncpus pmem caps tier cpu). Qed.

Lemma mount_shard_layout_witness :
  0 < 2 /\
  nova_get_bdev_free_list sbi_mounted TIER_BDEV_HIGH 1 =
  mk_bfl TIER_BDEV_HIGH 1 (100 + 50 + 1 * 25) (100 + 50 + 1 * 25 + 25 - 1) 25 25 1
    (Some 3%nat) (Some 3%nat) [mk_node 3 (100 + 50 + 1 * 25) (100 + 50 + 1 * 25 + 25 - 1) true].
Proof.
  split; [lia|].
  apply (mount_shard_layout 2 100 [50; 50] TIER_BDEV_HIGH 1); [lia|right; reflexivity|lia].
Defined.

Lemma mount_tier_window_witness :
  0 < 2 /\
  nova_get_bdev_block_start sbi_mounted TIER_BDEV_LOW = 100 + 0 /\
  nova_get_bdev_block_end sbi_mounted TIER_BDEV_LOW = 100 + 0 + 2 * 25 - 1.
Proof.
  split; [lia|].
  apply (mount_tier_window 2 100 [50; 50] TIER_BDEV_LOW); [lia|left; reflexivity].
Defined.

Lemma mount_bfl_index_witness :
  get_bfl_index sbi_mounted 130 = 1 /\
  (forall cpu, 0 <= cpu < 2 ->
     100 + cpu * (50 / 2) <= 130 <= 100 + cpu * (50 / 2) + 50 / 2 - 1 ->
     get_bfl_index sbi_mounted 130 = cpu) /\
  (forall cpu, 0 <= cpu < 2 ->
     100 + 50 + cpu * (50 / 2) <= 130 <= 100 + 50 + cpu * (50 / 2) + 50 / 2 - 1 ->
     get_bfl_index sbi_mounted 130 = 2 + cpu) /\
  (130 < 100 \/ 100 + 2 * (50 / 2) <= 130 < 100 + 50 \/ 100 + 50 + 2 * (50 / 2) <= 130 ->
     get_bfl_index sbi_mounted 130 = -1).
Proof.
  split; [vm_compute; reflexivity|].
  apply (mount_bfl_index 2 100 [50; 50] 130); cbn; lia.
Defined.

Lemma mount_usage_zero_witness :
  0 <= 80 /\
  Victim.nova_bdev_used sbi_mounted TIER_BDEV_LOW = 0 /\
  Victim.nova_bdev_total sbi_mounted TIER_BDEV_LOW = 2 * (50 / 2) /\
  Victim.is_bdev_usage_high 80 sbi_mounted TIER_BDEV_LOW = false.
Proof.
  split; [lia|].
  apply (mount_usage_zero 80 2 100 [50; 50] TIER_BDEV_LOW); [lia|left; reflexivity|lia|cbn; lia].
Defined.

End MountProps.

Module CandidateProps.
Import Bdev ExtraScenarios.

Definition cand_step (f : Z -> Z) (acc : Z * Z) (i : Z) : Z * Z :=
  let '(cpuid, nfb) := acc in if f i >? nfb then (i, f i) else (cpuid, nfb).

Lemma cand_fold (f : Z -> Z) (m : nat) :
  let '(c, v) := fold_left (cand_step f) (map Z.of_nat (seq 0 m)) (0, 0) in
  (c = 0 /\ v = 0 /\ forall i, 0 <= i < Z.of_nat m -> f i <= 0) \/
  (0 <= c < Z.of_nat m /\ v = f c /\ 0 < v /\
   (forall i, 0 <= i < Z.of_nat m -> f i <= v) /\ (forall i, 0 <= i < c -> f i < v)).
Proof.
  induction m as [|m IH].
  - cbn. left. repeat split; lia.
  - rewrite seq_S, map_app, fold_left_app. cbn [fold_left map Nat.add].
    destruct (fold_left (cand_step f) (map Z.of_nat (seq 0 m)) (0, 0)) as [c v] eqn:Ef.
    unfold cand_step at 1. rewrite Nat2Z.inj_succ.
    destruct (f (Z.of_nat m) >? v) eqn:E.
    + apply Z.gtb_lt in E. right.
      destruct IH as [(-> & -> & H)|(Hc & -> & Hv & H1 & H2)].
      * repeat split; try lia.
        -- intros i Hi. destruct (Z.eq_dec i (Z.of_nat m)) as [->|]; [lia|].
           specialize (H i ltac:(lia)); lia.
        -- intros i Hi. specialize (H i ltac:(lia)); lia.
      * repeat split; try lia.
        -- intros i Hi. destruct (Z.eq_dec i (Z.of_nat m)) as [->|]; [lia|].
           specialize (H1 i ltac:(lia)); lia.
        -- intros i Hi. specialize (H1 i ltac:(lia)); lia.
    + rewrite Z.gtb_ltb in E; apply Z.ltb_ge in E.
      destruct IH as [(-> & -> & H)|(Hc & -> & Hv & H1 & H2)].
      * left. repeat split; try lia.
        intros i Hi. destruct (Z.eq_dec i (Z.of_nat m)) as [->|]; [lia|].
        apply H; lia.
      * right. repeat split; try lia; auto.
        intros i Hi. destruct (Z.eq_dec i (Z.of_nat m)) as [->|]; [lia|].
        apply H1; lia.
Qed.

Lemma c_int_small x : 0 <= x < 2 ^ 31 -> c_int x = x.
Proof.
  intros H. unfold c_int. rewrite Z.mod_small by lia.
  destruct (Z.leb_spec (2 ^ 31) x); lia.
Qed.

Lemma cand_fold_int (sbi : nova_sb_info) (tier : Z) (l : list Z) (c v : Z) :
  let nf i := num_free_blocks (nova_get_bdev_free_list sbi tier i) in
  (forall i, In i l -> 0 <= nf i < 2 ^ 31) -> 0 <= v < 2 ^ 31 ->
  fold_left (fun '(cpuid, nfb) i =>
      let bfl := nova_get_bdev_free_list sbi tier i in
      if num_free_blocks bfl >? nfb mod 2 ^ 64 then (i, c_int (num_free_blocks bfl))
      else (cpuid, nfb)) l (c, v) =
  fold_left (cand_step nf) l (c, v).
Proof.
  intros nf. revert c v. induction l as [|i l IH]; intros c v Hl Hv; [reflexivity|].
  cbn [fold_left]. unfold cand_step at 2.
  rewrite (Z.mod_small v) by lia.
  assert (Hi : 0 <= nf i < 2 ^ 31) by (apply Hl; left; reflexivity).
  change (num_free_blocks (nova_get_bdev_free_list sbi tier i)) with (nf i).
  destruct (nf i >? v).
  - rewrite (c_int_small _ Hi). apply IH; [intros k Hk; apply Hl; right; exact Hk|lia].
  - apply IH; [intros k Hk; apply Hl; right; exact Hk|lia].
Qed.

(** X14: when every shard of the tier has fewer than [2^31] free blocks (so
    that the [int] running maximum holds the counts exactly),
    [nova_get_candidate_bdev_free_list] returns 0 when no shard has a free
    block; otherwise it returns a shard with the largest number of free
    blocks, and the first such shard in cpu order. *)
Theorem candidate_first_fullest (sbi : nova_sb_info) (tier : Z) :
  let nf i := num_free_blocks (nova_get_bdev_free_list sbi tier i) in
  let r := nova_get_candidate_bdev_free_list sbi tier in
  (forall i, 0 <= i < cpus sbi -> 0 <= nf i < 2 ^ 31) ->
  ((forall i, 0 <= i < cpus sbi -> nf i <= 0) -> r = 0) /\
  ((exists i, 0 <= i < cpus sbi /\ 0 < nf i) ->
   0 <= r < cpus sbi /\ 0 < nf r /\
   (forall i, 0 <= i < cpus sbi -> nf i <= nf r) /\
   (forall i, 0 <= i < r -> nf i < nf r)).
Proof.
  intros nf r Hb.
  assert (Hr : r = fst (fold_left (cand_step nf) (map Z.of_nat (seq 0 (Z.to_nat (cpus sbi)))) (0, 0))).
  { unfold r, nova_get_candidate_bdev_free_list. f_equal.
    apply cand_fold_int; [|lia].
    intros i Hi. apply Hb. unfold zseq in Hi. apply in_map_iff in Hi.
    destruct Hi as (n & <- & Hn). apply in_seq in Hn. lia. }
  pose proof (cand_fold nf (Z.to_nat (cpus sbi))) as H.
  destruct (fold_left (cand_step nf) _ (0, 0)) as [c v]. cbn in Hr. rewrite Hr. clear Hr.
  destruct (Z_lt_le_dec 0 (cpus sbi)) as [Hn|Hn].
  - rewrite Z2Nat.id in H by lia.
    destruct H as [(-> & -> & H)|(Hc & -> & Hv & H1 & H2)].
    + split; [reflexivity|]. intros (i & Hi & Hp). specialize (H i Hi). lia.
    + split.
      * intros Hall. specialize (Hall c Hc). lia.
      * intros _. repeat split; try lia; auto.
  - replace (Z.to_nat (cpus sbi)) with 0%nat in H by lia.
    destruct H as [(-> & -> & H)|(Hc & _)]; [|cbn in Hc; lia].
    split; [reflexivity|]. intros (i & Hi & _). lia.
Qed.

(** On a freshly mounted sbi both shards of tier 1 have 25 free blocks:
    shard 0 is chosen. *)
Lemma candidate_first_fullest_witness :
  nova_get_candidate_bdev_free_list sbi_mounted TIER_BDEV_LOW = 0 /\
  (let nf i := num_free_blocks (nova_get_bdev_free_list sbi_mounted TIER_BDEV_LOW i) in
   let r := nova_get_candidate_bdev_free_list sbi_mounted TIER_BDEV_LOW in
   ((forall i, 0 <= i < cpus sbi_mounted -> nf i <= 0) -> r = 0) /\
   ((exists i, 0 <= i < cpus sbi_mounted /\ 0 < nf i) ->
    0 <= r < cpus sbi_mounted /\ 0 < nf r /\
    (forall i, 0 <= i < cpus sbi_mounted -> nf i <= nf r) /\
    (forall i, 0 <= i < r -> nf i < nf r))).
Proof.
  split; [vm_compute; reflexivity|].
  apply (candidate_first_fullest sbi_mounted TIER_BDEV_LOW).
  intros i Hi. change (cpus sbi_mounted) with 2 in Hi.
  assert (i = 0 \/ i = 1) as [-> | ->] by lia; vm_compute; split; congruence.
Defined.

End CandidateProps.

Module FreeProps.
Import Bdev MountProps ExtraScenarios.

Lemma first_index_cases (P : Z -> bool) (l : list Z) :
  first_index P l = -1 \/ (In (first_index P l) l /\ P (first_index P l) = true).
Proof.
  induction l as [|i r IH]; cbn; [left; reflexivity|].
  destruct (P i) eqn:E; [right; split; [left|]; auto|].
  destruct IH as [IH|[IH1 IH2]]; [left; exact IH|right; split; [right|]; assumption].
Qed.

Lemma list_set_nth_same {A} (l : list A) (i : nat) (d : A) : list_set l i (nth i l d) = l.
Proof.
  revert i. induction l as [|x r IH]; intros [|i]; cbn; try reflexivity. rewrite IH. reflexivity.
Qed.

Lemma nth_list_set {A} (l : list A) (i j : nat) (x d : A) :
  nth j (list_set l i x) d = if (Nat.eqb j i && Nat.ltb i (length l))%bool then x else nth j l d.
Proof.
  revert i j. induction l as [|y r IH]; intros i j.
  - cbn [length list_set]. rewrite (proj2 (Nat.ltb_ge i 0)) by lia.
    rewrite andb_false_r. destruct j; reflexivity.
  - destruct i as [|i], j as [|j]; try reflexivity.
    change (nth (S j) (list_set (y :: r) (S i) x) d) with (nth j (list_set r i x) d).
    rewrite IH. reflexivity.
Qed.

Lemma free_in_bfl_outcome (bfl : bdev_free_list) (b n : Z) (id : nat) :
  let '(ret, bfl') := free_in_bfl bfl b n id in
  (ret <> 0 -> bfl' = bfl) /\
  (ret = 0 -> num_free_blocks bfl' = num_free_blocks bfl + n).
Proof.
  unfold free_in_bfl.
  destruct ((b <? block_start bfl) || (b + n >? block_end bfl + 1)); [split; [auto|discriminate]|].
  destruct (nova_find_free_slot _ _ _) as [[prev next]|]; [|split; [auto|discriminate]].
  destruct prev as [p|], next as [q|]; cbn;
    repeat match goal with
           | |- context [if ?c then _ else _] => destruct c
           | |- context [match insert_sorted ?x ?y with _ => _ end] => destruct (insert_sorted x y)
           end; cbn; split; try (intros H; exfalso; apply H; reflexivity); try discriminate; reflexivity.
Qed.

Lemma get_bfl_index_cases (sbi : nova_sb_info) (b : Z) :
  get_bfl_index sbi b = -1 \/
  (0 <= get_bfl_index sbi b < TIER_BDEV_HIGH * cpus sbi /\
   block_start (nova_get_bdev_free_list_flat sbi (get_bfl_index sbi b)) <= b <=
   block_end (nova_get_bdev_free_list_flat sbi (get_bfl_index sbi b))).
Proof.
  rewrite get_bfl_index_first.
  destruct (first_index_cases
    (fun i => (block_start (nova_get_bdev_free_list_flat sbi i) <=? b) &&
              (b <=? block_end (nova_get_bdev_free_list_flat sbi i)))
    (zseq (TIER_BDEV_HIGH * cpus sbi))) as [H|[H1 H2]]; [left; exact H|right].
  apply in_zseq in H1. apply andb_true_iff in H2. destruct H2 as [H2 H3].
  apply Z.leb_le in H2, H3. lia.
Qed.

(** X15: on an sbi with its [TIER_BDEV_HIGH * cpus] shards, a failed
    [nova_free_blocks_from_bdev] (nonzero result) leaves every shard as it
    was; a successful one needs [num_blocks > 0] and a node from the node
    pool, frees into the shard [get_bfl_index] finds for [blocknr], adds
    [num_blocks] to that shard's free count and changes no other shard. *)
Theorem free_from_bdev_outcome (sbi : nova_sb_info) (b n : Z) (node : option nat) :
  Z.of_nat (length (bdev_free_lists sbi)) = TIER_BDEV_HIGH * cpus sbi ->
  let '(ret, sbi') := nova_free_blocks_from_bdev sbi b n node in
  (ret <> 0 -> sbi' = sbi) /\
  (ret = 0 ->
   let i := get_bfl_index sbi b in
   0 < n /\ node <> None /\ 0 <= i < TIER_BDEV_HIGH * cpus sbi /\
   block_start (nova_get_bdev_free_list_flat sbi i) <= b <=
     block_end (nova_get_bdev_free_list_flat sbi i) /\
   num_free_blocks (nova_get_bdev_free_list_flat sbi' i) =
     num_free_blocks (nova_get_bdev_free_list_flat sbi i) + n /\
   (forall j, 0 <= j -> j <> i ->
      nova_get_bdev_free_list_flat sbi' j = nova_get_bdev_free_list_flat sbi j)).
Proof.
  intros Hlen. unfold nova_free_blocks_from_bdev.
  destruct (n <=? 0) eqn:En; [split; [auto|discriminate]|].
  destruct node as [id|]; [|split; [auto|discriminate]].
  destruct (Z.eqb_spec (get_bfl_index sbi b) (-1)) as [Ei|Ei]; [split; [auto|discriminate]|].
  destruct (get_bfl_index_cases sbi b) as [Hc|(Hr & Hb)]; [contradiction|].
  set (i := get_bfl_index sbi b) in *.
  pose proof (free_in_bfl_outcome (nova_get_bdev_free_list_flat sbi i) b n id) as Ho.
  destruct (free_in_bfl _ b n id) as [ret bfl'] eqn:Ef.
  destruct Ho as [Hf Hs]. split.
  - intros Hret. rewrite (Hf Hret). unfold nova_get_bdev_free_list_flat.
    rewrite list_set_nth_same. destruct sbi; reflexivity.
  - intros Hret. apply Z.leb_gt in En.
    split; [lia|]. split; [discriminate|]. split; [exact Hr|]. split; [exact Hb|].
    unfold nova_get_bdev_free_list_flat at 1 3. cbn [bdev_free_lists]. split.
    + rewrite nth_list_set, Nat.eqb_refl.
      replace (Nat.ltb (Z.to_nat i) (length (bdev_free_lists sbi))) with true
        by (symmetry; apply Nat.ltb_lt; lia).
      cbn. rewrite (Hs Hret). reflexivity.
    + intros j Hj Hji. rewrite nth_list_set.
      replace (Nat.eqb (Z.to_nat j) (Z.to_nat i)) with false
        by (symmetry; apply Nat.eqb_neq; lia).
      reflexivity.
Qed.

(** Freeing block 130 of the fresh mount, which is still free. *)
Lemma free_from_bdev_outcome_witness :
  Z.of_nat (length (bdev_free_lists sbi_mounted)) = TIER_BDEV_HIGH * cpus sbi_mounted /\
  let '(ret, sbi') := nova_free_blocks_from_bdev sbi_mounted 130 1 (Some 9%nat) in
  (ret <> 0 -> sbi' = sbi_mounted) /\
  (ret = 0 ->
   let i := get_bfl_index sbi_mounted 130 in
   0 < 1 /\ Some 9%nat <> None /\ 0 <= i < TIER_BDEV_HIGH * cpus sbi_mounted /\
   block_start (nova_get_bdev_free_list_flat sbi_mounted i) <= 130 <=
     block_end (nova_get_bdev_free_list_flat sbi_mounted i) /\
   num_free_blocks (nova_get_bdev_free_list_flat sbi' i) =
     num_free_blocks (nova_get_bdev_free_list_flat sbi_mounted i) + 1 /\
   (forall j, 0 <= j -> j <> i ->
      nova_get_bdev_free_list_flat sbi' j = nova_get_bdev_free_list_flat sbi_mounted j)).
Proof.
  split; [vm_compute; reflexivity|].
  apply (free_from_bdev_outcome sbi_mounted 130 1 (Some 9%nat)). vm_compute. reflexivity.
Defined.

End FreeProps.

(** ** The file walkers *)

Module WalkProps.
Import Bdev Migration Prof Walk ExtraScenarios.

Section Props.
Variable find : Z -> option nova_file_write_entry.
Variable isize : Z.

Lemma end_index_nonneg : 0 <= file_end_index isize.
Proof. unfold file_end_index, u64. apply Z.mod_pos_bound. lia. Qed.

Lemma wf_next i e :
  find_wf find -> 0 <= i -> find i = Some e -> u64 (pgoff e + num_pages e) = pgoff e + num_pages e /\
                                      i < pgoff e + num_pages e.
Proof.
  intros Hwf Hi E. unfold find_wf in Hwf. specialize (Hwf _ _ E). split; [|lia].
  apply SplitProps.u64_id. lia.
Qed.

Lemma nst_loop_same (t : Z) (fuel : nat) (index : Z) :
  find_wf find -> (forall i e, find i = Some e -> get_entry_tier e = t) ->
  0 <= index <= file_end_index isize ->
  (Z.to_nat (file_end_index isize - index) + 1 <= fuel)%nat ->
  is_not_same_tier_loop find isize fuel index (Some t) = Some 0.
Proof.
  intros Hwf Ht. revert index. induction fuel as [|f IH]; intros index Hi Hf; [lia|].
  cbn [is_not_same_tier_loop]. destruct (find index) as [e|] eqn:E; [|reflexivity].
  rewrite (Ht _ _ E), Z.eqb_refl. destruct (wf_next index e Hwf ltac:(lia) E) as [-> Hlt].
  destruct (pgoff e + num_pages e <=? file_end_index isize) eqn:L; [|reflexivity].
  apply Z.leb_le in L. apply IH; lia.
Qed.

Lemma nst_single_tier (t : Z) (fuel : nat) :
  find_wf find -> (forall i e, find i = Some e -> get_entry_tier e = t) ->
  file_end_index isize <> 0 ->
  (Z.to_nat (file_end_index isize) + 2 <= fuel)%nat ->
  is_not_same_tier find isize fuel = Some 0.
Proof.
  intros Hwf Ht Hne Hf. unfold is_not_same_tier.
  rewrite (proj2 (Z.eqb_neq _ _) Hne).
  pose proof end_index_nonneg.
  destruct fuel as [|f]; [lia|]. cbn [is_not_same_tier_loop].
  destruct (find 0) as [e|] eqn:E; [|reflexivity].
  rewrite (proj2 (Z.leb_le _ _) H). rewrite (Ht _ _ E).
  apply nst_loop_same; auto; lia.
Qed.

Lemma nst_loop_one (fuel : nat) (index : Z) (exist : option Z) :
  (forall t, exist = Some t -> exists i e, find i = Some e /\ get_entry_tier e = t) ->
  is_not_same_tier_loop find isize fuel index exist = Some 1 ->
  exists i j e1 e2, find i = Some e1 /\ find j = Some e2 /\
                    get_entry_tier e1 <> get_entry_tier e2.
Proof.
  revert index exist. induction fuel as [|f IH]; intros index exist Hex H; [discriminate|].
  cbn [is_not_same_tier_loop] in H.
  destruct (find index) as [e|] eqn:E; [|discriminate].
  destruct exist as [t|].
  - destruct (get_entry_tier e =? t) eqn:Et.
    + destruct (_ <=? _); [|discriminate]. eapply IH; [|exact H]. exact Hex.
    + destruct (Hex t eq_refl) as (i & e0 & E0 & T0).
      exists i, index, e0, e. apply Z.eqb_neq in Et. repeat split; auto. congruence.
  - destruct (index <=? _); [|discriminate].
    eapply IH; [|exact H]. intros t Ht. injection Ht as <-. eauto.
Qed.

Section Engine.
Variables (entry_csum : nova_file_write_entry -> Z)
  (alloc : Z -> Z -> Z -> Z * Z) (locked : Z -> Z -> bool) (b2v raw : Z -> Z)
  (wr rd : Z -> Z -> Z -> Z) (flush : Z) (append : Z -> option Z) (blk_shift cpu : Z).

Lemma by_entries_loop_ends (fuel : nat) (index : Z) (st : mig_state) (from to : Z) :
  find_wf find -> 0 <= index <= file_end_index isize ->
  (Z.to_nat (file_end_index isize - index) + 1 <= fuel)%nat ->
  exists st', by_entries_loop find isize entry_csum alloc locked b2v raw wr rd flush
                append blk_shift cpu fuel index st from to = Some st' /\
              ((forall i e, find i = Some e -> get_entry_tier e <> from) -> st' = st).
Proof.
  intros Hwf. revert index st. induction fuel as [|f IH]; intros index st Hi Hf; [lia|].
  cbn [by_entries_loop]. destruct (find index) as [e|] eqn:E; [|exists st; split; [reflexivity | intros; reflexivity]].
  destruct (wf_next index e Hwf ltac:(lia) E) as [-> Hlt].
  set (st1 := if get_entry_tier e =? from then _ else st).
  assert (Hst1 : (forall i e, find i = Some e -> get_entry_tier e <> from) -> st1 = st).
  { intros Hno. unfold st1. rewrite (proj2 (Z.eqb_neq _ _) (Hno _ _ E)). reflexivity. }
  destruct (pgoff e + num_pages e <=? file_end_index isize) eqn:L.
  - apply Z.leb_le in L. destruct (IH (pgoff e + num_pages e) st1 ltac:(lia) ltac:(lia))
      as (st' & Hs & Hu).
    exists st'. split; [exact Hs|]. intros Hno. rewrite (Hu Hno). apply Hst1, Hno.
  - exists st1. split; [reflexivity|]. exact Hst1.
Qed.
End Engine.

End Props.

Lemma find_two_wf (b : nova_file_write_entry) :
  pgoff b = 4 -> num_pages b = 4 -> find_wf (find_two b).
Proof.
  intros Hp Hn i e H. unfold find_two in H.
  destruct ((0 <=? i) && (i <? 4)) eqn:A.
  - apply andb_true_iff in A as [A1 A2]. apply Z.ltb_lt in A2.
    injection H as <-. cbn. lia.
  - destruct ((4 <=? i) && (i <? 8)) eqn:B; [|discriminate].
    apply andb_true_iff in B as [B1 B2]. apply Z.ltb_lt in B2.
    injection H as <-. lia.
Qed.

Lemma find_two_tiers (b : nova_file_write_entry) (i : Z) (e : nova_file_write_entry) :
  find_two b i = Some e -> e = walk_a \/ e = b.
Proof.
  unfold find_two. destruct (_ && _); [injection 1; auto|].
  destruct (_ && _); [injection 1; auto | discriminate].
Qed.

Lemma find_two_same_tier (i : Z) (e : nova_file_write_entry) :
  find_two walk_b i = Some e -> get_entry_tier e = TIER_PMEM.
Proof. intros H. destruct (find_two_tiers _ _ _ H) as [-> | ->]; reflexivity. Qed.

Lemma find_two_tier_nonneg (i : Z) (e : nova_file_write_entry) :
  find_two walk_b i = Some e -> 0 <= get_entry_tier e.
Proof. intros H. rewrite (find_two_same_tier _ _ H). unfold TIER_PMEM. lia. Qed.

(** [is_not_same_tier] returns 1 only for a file smaller than one page
    ([end_index = 0]) or when the lookup returns two write entries on
    different tiers. *)
Theorem is_not_same_tier_one_means_two_tiers
    (find : Z -> option nova_file_write_entry) (isize : Z) (fuel : nat) :
  is_not_same_tier find isize fuel = Some 1 ->
  file_end_index isize = 0 \/
  exists i j e1 e2, find i = Some e1 /\ find j = Some e2 /\
                    get_entry_tier e1 <> get_entry_tier e2.
Proof.
  unfold is_not_same_tier. intros H.
  destruct (file_end_index isize =? 0) eqn:E; [left; apply Z.eqb_eq; exact E|].
  right. eapply nst_loop_one; [|exact H]. discriminate.
Qed.

(** When every write entry of a file of at least one page is on the same
    tier, and each lookup returns an entry ending after the index asked for,
    [is_not_same_tier] ends within [end_index + 2] iterations and returns 0. *)
Theorem is_not_same_tier_single_tier
    (find : Z -> option nova_file_write_entry) (isize t : Z) (fuel : nat) :
  find_wf find -> (forall i e, find i = Some e -> get_entry_tier e = t) ->
  file_end_index isize <> 0 ->
  (Z.to_nat (file_end_index isize) + 2 <= fuel)%nat ->
  is_not_same_tier find isize fuel = Some 0.
Proof. apply nst_single_tier. Qed.

(** [do_migrate_a_file_rotate] on a file of at least one page whose write
    entries all lie on one tier [t] calls [migrate_a_file] once, moving the
    file from PMEM to the low block device, from there to the high one (to
    PMEM when [DEBUG_XFSTESTS] is set), and from the high one to PMEM, and
    returns its result; on any other tier it returns -1. *)
Theorem rotate_single_tier_one_step
    (find : Z -> option nova_file_write_entry) (isize : Z)
    (migrate_a_file : Z -> Z -> Z) (DEBUG_XFSTESTS : bool) (fuel : nat)
    (t : Z) (e0 : nova_file_write_entry) :
  find_wf find -> (forall i e, find i = Some e -> get_entry_tier e = t) ->
  find 0 = Some e0 -> file_end_index isize <> 0 ->
  (Z.to_nat (file_end_index isize) + 2 <= fuel)%nat ->
  do_migrate_a_file_rotate find isize migrate_a_file DEBUG_XFSTESTS fuel =
  Some (if t =? TIER_PMEM then migrate_a_file TIER_PMEM TIER_BDEV_LOW
        else if t =? TIER_BDEV_LOW then
          (if DEBUG_XFSTESTS then migrate_a_file TIER_BDEV_LOW TIER_PMEM
           else migrate_a_file TIER_BDEV_LOW TIER_BDEV_HIGH)
        else if t =? TIER_BDEV_HIGH then migrate_a_file TIER_BDEV_HIGH TIER_PMEM
        else -1).
Proof.
  intros Hwf Ht E0 Hne Hf. unfold do_migrate_a_file_rotate.
  rewrite (nst_single_tier find isize t fuel Hwf Ht Hne Hf). cbn [Z.eqb negb].
  unfold current_tier. rewrite (proj2 (Z.eqb_neq _ _) Hne), E0, (Ht _ _ E0).
  destruct (t =? TIER_PMEM); [reflexivity|].
  destruct (t =? TIER_BDEV_LOW); [reflexivity|].
  change (TIER_BDEV_LOW + 1) with TIER_BDEV_HIGH.
  destruct (t =? TIER_BDEV_HIGH); reflexivity.
Qed.

(** A file smaller than one page is never migrated: rotation returns -1
    whatever [migrate_a_file] would do, and [migrate_a_file_to_pmem] walks
    with [from = -1] and migrates no entry, so only the epilogue (inode
    update, [nova_reassign_file_tree] from the unchanged tail, forced log GC)
    acts on the state, and its result is returned. *)
Theorem sub_page_file_never_migrated
    (find : Z -> option nova_file_write_entry) (isize : Z)
    (migrate_a_file : Z -> Z -> Z) (DEBUG_XFSTESTS : bool)
    (entry_csum : nova_file_write_entry -> Z)
    (alloc : Z -> Z -> Z -> Z * Z) (locked : Z -> Z -> bool) (b2v raw : Z -> Z)
    (wr rd : Z -> Z -> Z -> Z) (flush : Z) (append : Z -> option Z) (blk_shift cpu : Z)
    (upd : mig_state -> mig_state) (reassign : Z -> mig_state -> Z * mig_state)
    (gc : mig_state -> mig_state) (fuel : nat) (st : mig_state) :
  file_end_index isize = 0 ->
  find_wf find -> (forall i e, find i = Some e -> 0 <= get_entry_tier e) ->
  (1 <= fuel)%nat ->
  do_migrate_a_file_rotate find isize migrate_a_file DEBUG_XFSTESTS fuel = Some (-1) /\
  migrate_a_file_to_pmem find isize entry_csum alloc locked b2v raw wr rd flush
    append blk_shift cpu upd reassign gc fuel st =
  Some (by_entries_epilogue upd reassign gc (ms_tail st) st).
Proof.
  intros H0 Hwf Hge Hf. split.
  - unfold do_migrate_a_file_rotate, is_not_same_tier. rewrite H0. reflexivity.
  - unfold migrate_a_file_to_pmem, migrate_a_file_by_entries, current_tier.
    rewrite H0. cbn [Z.eqb].
    destruct fuel as [|f]; [lia|]. cbn [by_entries_loop].
    destruct (find 0) as [e|] eqn:E; [|reflexivity].
    destruct (wf_next find 0 e Hwf ltac:(lia) E) as [-> Hlt].
    pose proof (Hge _ _ E).
    rewrite (proj2 (Z.eqb_neq (get_entry_tier e) (-1)) ltac:(lia)).
    rewrite H0. rewrite (proj2 (Z.leb_gt _ _) Hlt). reflexivity.
Qed.

(** With a well-behaved lookup, the walk of [migrate_a_file_by_entries]
    ends within [end_index + 1] iterations; the function then runs the
    epilogue from the initial tail and returns the result of
    [nova_reassign_file_tree], whatever the per-entry migrations returned.
    When no entry is on [from], the walk changes nothing: only the epilogue
    acts on the state. *)
Theorem by_entries_returns_reassign
    (find : Z -> option nova_file_write_entry) (isize : Z)
    (entry_csum : nova_file_write_entry -> Z)
    (alloc : Z -> Z -> Z -> Z * Z) (locked : Z -> Z -> bool) (b2v raw : Z -> Z)
    (wr rd : Z -> Z -> Z -> Z) (flush : Z) (append : Z -> option Z) (blk_shift cpu : Z)
    (upd : mig_state -> mig_state) (reassign : Z -> mig_state -> Z * mig_state)
    (gc : mig_state -> mig_state) (fuel : nat) (from to : Z) (st : mig_state) :
  find_wf find -> (Z.to_nat (file_end_index isize) + 1 <= fuel)%nat ->
  exists st',
    migrate_a_file_by_entries find isize entry_csum alloc locked b2v raw wr rd flush
      append blk_shift cpu upd reassign gc fuel from to st =
      Some (by_entries_epilogue upd reassign gc (ms_tail st) st') /\
    fst (by_entries_epilogue upd reassign gc (ms_tail st) st') =
      fst (reassign (ms_tail st) (upd st')) /\
    ((forall i e, find i = Some e -> get_entry_tier e <> from) -> st' = st).
Proof.
  intros Hwf Hf. pose proof (end_index_nonneg isize).
  destruct (by_entries_loop_ends find isize entry_csum alloc locked b2v raw wr rd flush
              append blk_shift cpu fuel 0 st from to Hwf ltac:(lia) ltac:(rewrite Z.sub_0_r; lia))
    as (st' & Hs & Hu).
  exists st'. unfold migrate_a_file_by_entries. rewrite Hs. split; [reflexivity|].
  split; [|exact Hu]. unfold by_entries_epilogue.
  destruct (reassign (ms_tail st) (upd st')). reflexivity.
Qed.

Lemma is_not_same_tier_one_means_two_tiers_witness :
  is_not_same_tier (find_two walk_b_low) walk_isize 20 = Some 1 /\
  (file_end_index walk_isize = 0 \/
   exists i j e1 e2, find_two walk_b_low i = Some e1 /\ find_two walk_b_low j = Some e2 /\
                     get_entry_tier e1 <> get_entry_tier e2).
Proof.
  split; [vm_compute; reflexivity|].
  apply (is_not_same_tier_one_means_two_tiers (find_two walk_b_low) walk_isize 20).
  vm_compute; reflexivity.
Defined.

Lemma is_not_same_tier_single_tier_witness :
  file_end_index walk_isize = 8 /\
  is_not_same_tier (find_two walk_b) walk_isize 20 = Some 0.
Proof.
  split; [vm_compute; reflexivity|].
  apply (is_not_same_tier_single_tier (find_two walk_b) walk_isize TIER_PMEM 20).
  - apply find_two_wf; reflexivity.
  - exact find_two_same_tier.
  - vm_compute; discriminate.
  - vm_compute; lia.
Defined.

Lemma rotate_single_tier_one_step_witness :
  do_migrate_a_file_rotate (find_two walk_b) walk_isize (fun from to => 10 * from + to)
    false 20 = Some 1.
Proof.
  rewrite (rotate_single_tier_one_step (find_two walk_b) walk_isize
             (fun from to => 10 * from + to) false 20 TIER_PMEM walk_a).
  - reflexivity.
  - apply find_two_wf; reflexivity.
  - exact find_two_same_tier.
  - vm_compute; reflexivity.
  - vm_compute; discriminate.
  - vm_compute; lia.
Defined.

Lemma sub_page_file_never_migrated_witness :
  do_migrate_a_file_rotate (find_two walk_b) 100 (fun from to => 10 * from + to) false 5
    = Some (-1) /\
  migrate_a_file_to_pmem (find_two walk_b) 100 (fun _ => 0) (fun _ _ _ => (0, 0))
    (fun _ _ => false) (fun x => x) (fun x => x) (fun _ _ _ => 0) (fun _ _ _ => 0) 0
    (fun t => Some (t + 1)) 0 0 (fun s => s) (fun _ s => (7, s)) (fun s => s) 5 walk_state
  = Some (by_entries_epilogue (fun s => s) (fun _ s => (7, s)) (fun s => s)
            (ms_tail walk_state) walk_state).
Proof.
  apply (sub_page_file_never_migrated (find_two walk_b) 100).
  - vm_compute; reflexivity.
  - apply find_two_wf; reflexivity.
  - exact find_two_tier_nonneg.
  - lia.
Defined.

Lemma by_entries_returns_reassign_witness :
  exists st',
    migrate_a_file_by_entries (find_two walk_b) walk_isize (fun _ => 0) (fun _ _ _ => (0, 0))
      (fun _ _ => false) (fun x => x) (fun x => x) (fun _ _ _ => 0) (fun _ _ _ => 0) 0
      (fun t => Some (t + 1)) 0 0 (fun s => s) (fun _ s => (7, s)) (fun s => s)
      20 TIER_PMEM TIER_BDEV_LOW walk_state =
    Some (by_entries_epilogue (fun s => s) (fun _ s => (7, s)) (fun s => s)
            (ms_tail walk_state) st') /\
    fst (by_entries_epilogue (fun s => s) (fun _ s => (7, s)) (fun s => s)
           (ms_tail walk_state) st') =
      fst ((fun (_ : Z) (s : mig_state) => (7, s)) (ms_tail walk_state) st') /\
    ((forall i e, find_two walk_b i = Some e -> get_entry_tier e <> TIER_PMEM) ->
     st' = walk_state).
Proof.
  apply (by_entries_returns_reassign (find_two walk_b) walk_isize).
  - apply find_two_wf; reflexivity.
  - vm_compute; lia.
Defined.

End WalkProps.
